(** * TLSWrap / SSLWrap: a shallow embedding of node's TLS stream pump

    Sources embedded: [src/tls_wrap.cc] (class [TLSWrap]) and the
    [SSLWrap<Base>] / [SecureContext] callbacks of [src/node_crypto.cc]
    and [src/node_crypto.h].

    The TLS library (OpenSSL), the underlying transport stream, the
    consumer of the plaintext stream and the JavaScript handlers are
    external collaborators.  They appear as oracles bundled in a record
    [Env]; every theorem quantifies over all of them. *)

From Stdlib Require Import String.
From Stdlib Require Import List ZArith Bool Lia Arith.
From Stdlib Require Import Init.Byte.
Import ListNotations.

Local Open Scope Z_scope.

Set Implicit Arguments.

(** ** Bytes *)

Definition bytes := list byte.

Fixpoint bytes_eqb (a b : bytes) : bool :=
  match a, b with
  | [], [] => true
  | x :: a', y :: b' => Byte.eqb x y && bytes_eqb a' b'
  | _, _ => false
  end.

(** ** Status codes

    libuv error codes as they are on Linux ([-errno], and [UV_EOF]). *)

Definition UV_EOF : Z := -4095.
Definition UV_EPROTO : Z := -71.
Definition UV_ECANCELED : Z := -125.

(** Return values of the TLS extension callbacks (openssl/tls1.h). *)
Definition SSL_TLSEXT_ERR_OK : Z := 0.
Definition SSL_TLSEXT_ERR_ALERT_WARNING : Z := 1.
Definition SSL_TLSEXT_ERR_ALERT_FATAL : Z := 2.
Definition SSL_TLSEXT_ERR_NOACK : Z := 3.

(** ** ALPN negotiation: [SSLWrap<Base>::SelectALPNCallback] *)

Module ALPN.

(** A protocol name; the length-prefixed wire encoding of a protocol list
    is the engine's business, a list is held here decoded. *)
Definition proto := bytes.

Inductive npn_status :=
| OPENSSL_NPN_UNSUPPORTED
| OPENSSL_NPN_NEGOTIATED
| OPENSSL_NPN_NO_OVERLAP.

Definition mem (p : proto) (l : list proto) : bool :=
  existsb (bytes_eqb p) l.

(** OpenSSL's [SSL_select_next_proto(out, outlen, server, server_len,
    client, client_len)] (ssl/ssl_lib.c), a library function: the outer
    loop runs over its [server] argument, the inner loop over [client];
    the first [server] entry that equals some [client] entry is the
    result.  Without a match [out] points at the first [client] entry and
    the status is [OPENSSL_NPN_NO_OVERLAP]. *)
Fixpoint select_loop (server client : list proto) : option proto :=
  match server with
  | [] => None
  | s :: rest => if mem s client then Some s else select_loop rest client
  end.

Definition SSL_select_next_proto (server client : list proto)
  : npn_status * option proto :=
  match select_loop server client with
  | Some p => (OPENSSL_NPN_NEGOTIATED, Some p)
  | None => (OPENSSL_NPN_NO_OVERLAP, hd_error client)
  end.

(** [SelectALPNCallback(s, out, outlen, in, inlen, arg)]: [alpn_protos] is
    the buffer the server stored with [SetALPNProtocols], [in_] the list
    the client advertised.  The result is the callback's return value
    and what it leaves in [*out]. *)
Definition SelectALPNCallback (alpn_protos in_ : list proto)
  : Z * option proto :=
  let '(status, out) := SSL_select_next_proto alpn_protos in_ in
  ((match status with
    | OPENSSL_NPN_NEGOTIATED => SSL_TLSEXT_ERR_OK
    | _ => SSL_TLSEXT_ERR_NOACK
    end), out).

(** The selection as the specification words it: the first name of the
    client's list that the server supports. *)
Definition first_common_in_client_order (server client : list proto)
  : option proto :=
  find (fun p => mem p server) client.

Definition h2 : proto := list_byte_of_string "h2".
Definition http11 : proto := list_byte_of_string "http/1.1".

End ALPN.

(** ** Session tickets: [SecureContext::TicketCompatibilityCallback] *)

Module Ticket.

Record SecureContext := {
  ticket_key_name_ : bytes;
  ticket_key_aes_ : bytes;
  ticket_key_hmac_ : bytes
}.

(** Results of the library calls the callback makes. *)
Record Crypto := {
  RAND_bytes : Z;
  EVP_EncryptInit_ex : Z;
  EVP_DecryptInit_ex : Z;
  HMAC_Init_ex : Z
}.

(** [memcmp(a, b, n) != 0] *)
Definition memcmp_differs (a b : bytes) (n : nat) : bool :=
  negb (bytes_eqb (firstn n a) (firstn n b)).

(** [sizeof(sc->ticket_key_name_)] *)
Definition name_size : nat := 16.

(** Returns the callback's return value and the contents of the [name]
    buffer afterwards.  The library calls are made left to right and
    short-circuit on the first failure, which does not show in the
    result. *)
Definition TicketCompatibilityCallback (sc : SecureContext) (c : Crypto)
    (name : bytes) (enc : Z) : Z * bytes :=
  if negb (enc =? 0) then
    let name' := firstn name_size (ticket_key_name_ sc) ++ skipn name_size name in
    if (RAND_bytes c <=? 0) || (EVP_EncryptInit_ex c <=? 0)
       || (HMAC_Init_ex c <=? 0)
    then (-1, name')
    else (1, name')
  else if memcmp_differs name (ticket_key_name_ sc) name_size then
    (* The ticket key name does not match. Discard the ticket. *)
    (0, name)
  else if (EVP_DecryptInit_ex c <=? 0) || (HMAC_Init_ex c <=? 0) then
    (-1, name)
  else (1, name).

Definition key_a : bytes := repeat x61 16.
Definition key_b : bytes := repeat x62 16.

End Ticket.

(** ** The stream pump: [TLSWrap] and its base class [SSLWrap<TLSWrap>] *)

Module TLS.

(** *** Results of operations that can stop the process *)

Inductive result (A : Type) : Type :=
| Ok (a : A)
| Crash (why : string)  (* a CHECK, ABORT or UNREACHABLE fired, or a null
                           pointer was dereferenced *)
| OutOfFuel.              (* the loop bound of this model ran out *)

Arguments Ok {A} a.
Arguments Crash {A} why.
Arguments OutOfFuel {A}.

Definition bind {A B : Type} (m : result A) (k : A -> result B) : result B :=
  match m with
  | Ok a => k a
  | Crash why => Crash why
  | OutOfFuel => OutOfFuel
  end.

Notation "x <- m ;; k" := (bind m (fun x => k))
  (at level 61, m at next level, right associativity).
Notation "' p <- m ;; k" := (bind m (fun x => let 'p := x in k))
  (at level 61, p pattern, m at next level, right associativity).


(** *** Vocabulary shared with the collaborators *)

Inductive Kind := kClient | kServer.

(** The type [CertCb] of the stored continuation; the only function the sources
    ever store is [TLSWrap::OnClientHelloParseEnd] ([EnableCertCb]). *)
Inductive CertCb := OnClientHelloParseEnd_cb.

(** Identity of a [WriteWrap] request. *)
Definition WriteWrap := nat.

(** Classes of [SSL_get_error]. *)
Inductive ssl_error :=
| SSL_ERROR_NONE
| SSL_ERROR_SSL
| SSL_ERROR_WANT_READ
| SSL_ERROR_WANT_WRITE
| SSL_ERROR_WANT_X509_LOOKUP
| SSL_ERROR_SYSCALL
| SSL_ERROR_ZERO_RETURN
| SSL_ERROR_other (code : Z).

Definition is_zero_return (e : ssl_error) : bool :=
  match e with SSL_ERROR_ZERO_RETURN => true | _ => false end.

(** The value handed to [onerror]. *)
Inductive js_error :=
| zero_return_string
| ssl_exception (msg : string)
| sni_context_type_error.

Definition SSL_RECEIVED_SHUTDOWN : Z := 2.
Definition SSL_CB_HANDSHAKE_START : Z := 16.
Definition SSL_CB_HANDSHAKE_DONE : Z := 32.

(** [SecureContext::kMaxSessionSize] *)
Definition kMaxSessionSize : Z := 10 * 1024.

(** [static_cast<int>] of a [size_t], and the conversion of a [size_t]
    argument to an [int] parameter: the low 32 bits, read as a signed
    number. *)
Definition INT_MAX : Z := 2 ^ 31 - 1.

Definition to_int (n : Z) : Z := (n + 2 ^ 31) mod 2 ^ 32 - 2 ^ 31.

(** What [sni_context] holds when JavaScript calls [certCbDone]. *)
Inductive SniContext :=
| ctx_not_object
| ctx_secure_context (installs : bool)  (* [rv] of installing the identity *)
| ctx_wrong_shape.

(** The methods of the wrap that JavaScript calls.  A handler that the
    wrap calls while it is at work ([onread], [onerror], [oncertcb],
    [onnewsession], [onhandshakestart], [onhandshakedone],
    [onclienthello]) runs JavaScript, and what it does to the wrap before
    it returns is a list of such calls. *)
Inductive Call :=
| CallDoWrite (w : WriteWrap) (bufs : list bytes)
| CallStart
| CallDoShutdown
| CallDestroySSL
| CallEnableSessionCallbacks
| CallEndParser
| CallEnableCertCb
| CallCertCbDone (ctx : SniContext)
| CallNewSessionDone.

(** Callbacks the engine makes into the wrap while it runs; each comes
    with the calls that the JavaScript handlers it reaches make. *)
Inductive EngineCallback :=
| cb_info (where_ : Z) (renegotiate_pending : bool)
    (onhandshakestart onhandshakedone : list Call)
| cb_new_session (size : Z) (onnewsession : list Call)
    (* [size] is the result of [i2d_SSL_SESSION] *)
| cb_cert (oncertcb : list Call).

(** One call of [SSL_read], [SSL_write] or [SSL_shutdown]. *)
Record Outcome (SSL : Type) := {
  o_ret : Z;                      (* the return value *)
  o_err : ssl_error;              (* [SSL_get_error] for it *)
  o_msg : string;                 (* text of the library's error queue *)
  o_data : bytes;                 (* plaintext placed in the caller's buffer *)
  o_consumed : nat;               (* bytes taken from the incoming BIO *)
  o_produced : bytes;             (* bytes appended to the outgoing BIO *)
  o_callbacks : list EngineCallback;
  o_ssl : SSL                     (* the engine afterwards *)
}.

(** [StreamWriteResult] of the underlying stream: accepted and pending,
    finished synchronously, or refused with an error. *)
Inductive StreamWriteResult :=
| WriteAsync
| WriteSync
| WriteFailed (e : Z).

Definition async (r : StreamWriteResult) : bool :=
  match r with WriteAsync => true | _ => false end.

Definition err (r : StreamWriteResult) : Z :=
  match r with WriteFailed e => e | _ => 0 end.

(** Verdict of the ClientHello parser on the bytes shown to it. *)
Inductive ParseVerdict :=
| NeedMore
| HelloComplete   (* [onhello_cb_] is called; the parser waits for
                     [endParser] *)
| ParseFailed.    (* the parser ends itself *)

(** The collaborators.  [SSL_write] gets the buffer, the [int] length it
    is called with, and the incoming BIO. *)
Record Env := {
  SSL : Type;
  Stream : Type;
  SSL_read : SSL -> bytes -> Outcome SSL;
  SSL_write : SSL -> bytes -> Z -> bytes -> Outcome SSL;
  SSL_shutdown : SSL -> bytes -> Outcome SSL;
  SSL_get_shutdown : SSL -> Z;
  stream_Write : Stream -> list bytes -> StreamWriteResult * Stream;
  stream_DoShutdown : Stream -> Z * Stream;
  EmitAlloc : nat -> nat;           (* [buf.len] the consumer provides *)
  onread : Z -> bytes -> list Call;
      (* what the consumer's [onread] handler does with a delivery *)
  onerror : js_error -> list Call;
  onclienthello : bytes -> list Call;
  hello_parse : bytes -> ParseVerdict;
  peek_limit : nat
}.

(** Modelled from the spec: [ClientHelloParser] (node_crypto_clienthello.h
    is not among the sources).  The sniffer is Active or Ended, Ended is
    for good, and ended is also how it reads before parsing was ever
    started (tls_wrap.cc, [OnStreamRead]). *)
Inductive ClientHelloParser := NeverStarted | Active | Ended.

Definition IsEnded (p : ClientHelloParser) : bool :=
  match p with Active => false | _ => true end.

(** The classes of [SSL_get_error] for which [GetSSLError] has nothing to
    report, and those it reports. *)
Definition would_block (e : ssl_error) : bool :=
  match e with
  | SSL_ERROR_NONE | SSL_ERROR_WANT_READ | SSL_ERROR_WANT_WRITE
  | SSL_ERROR_WANT_X509_LOOKUP => true
  | _ => false
  end.

Definition fatal (e : ssl_error) : bool :=
  match e with
  | SSL_ERROR_SSL | SSL_ERROR_SYSCALL | SSL_ERROR_ZERO_RETURN => true
  | _ => false
  end.

(** What [GetSSLError] leaves in [*msg]: the text of the error queue for
    [SSL_ERROR_SSL] and [SSL_ERROR_SYSCALL], nothing otherwise. *)
Definition error_text (e : js_error) : string :=
  match e with
  | ssl_exception msg => msg
  | _ => EmptyString
  end.

(** What kind of transport write waits for [OnStreamAfterWrite]. *)
Inductive WriteKind :=
| DataWrite    (* issued by [EncOut] *)
| EmptyWrite.  (* issued by [DoWrite] for an empty payload *)

Inductive Immediate :=
| ImmInvokeQueued                 (* [InvokeQueued(0)] *)
| ImmAfterWrite (k : WriteKind).  (* [OnStreamAfterWrite(_, 0)] *)

Inductive Event :=
| EvSSL_read (enc_in : bytes)
| EvSSL_write (payload : bytes) (num : Z) (written : Z)
| EvSSL_shutdown
| EvStreamWrite (k : WriteKind) (bufs : list bytes) (res : StreamWriteResult)
| EvStreamShutdown
| EvEmitRead (nread : Z) (data : bytes)
| EvOnError (e : js_error)
| EvThrow
| EvDone (w : WriteWrap) (status : Z) (msg : option string)
| EvHelloParse (data : bytes)
| EvOnClientHello
| EvOnCertCb
| EvOnNewSession
| EvOnHandshakeStart
| EvOnHandshakeDone.

(** What drives the wrap: the transport, the event loop and JavaScript. *)
Inductive Op :=
| OpStreamRead (nread : Z) (buf : bytes)  (* the transport delivers *)
| OpDoWrite (w : WriteWrap) (bufs : list bytes)
| OpAfterWrite (status : Z)          (* the transport completes its oldest
                                        write *)
| OpImmediate                        (* the loop runs the oldest immediate *)
| OpStart
| OpDoShutdown
| OpDestroySSL
| OpEnableSessionCallbacks
| OpEndParser
| OpEnableCertCb
| OpCertCbDone (ctx : SniContext)
| OpNewSessionDone.

Definition op_of (c : Call) : Op :=
  match c with
  | CallDoWrite w bufs => OpDoWrite w bufs
  | CallStart => OpStart
  | CallDoShutdown => OpDoShutdown
  | CallDestroySSL => OpDestroySSL
  | CallEnableSessionCallbacks => OpEnableSessionCallbacks
  | CallEndParser => OpEndParser
  | CallEnableCertCb => OpEnableCertCb
  | CallCertCbDone ctx => OpCertCbDone ctx
  | CallNewSessionDone => OpNewSessionDone
  end.

(** The calls of the handlers an engine callback reaches. *)
Definition reaction (cb : EngineCallback) : list Call :=
  match cb with
  | cb_info _ _ onstart ondone => onstart ++ ondone
  | cb_new_session _ js => js
  | cb_cert js => js
  end.

Section Wrap.

Variable E : Env.

(** The fields of the base class [SSLWrap<TLSWrap>] (node_crypto.h). *)
Record SSLWrap := {
  kind_ : Kind;
  ssl_ : option (SSL E);  (* [SSLPointer]; [None] once reset *)
  session_callbacks_ : bool;
  awaiting_new_session_ : bool;
  cert_cb_ : option CertCb;  (* [None] is [nullptr] *)
  cert_cb_running_ : bool;
  hello_parser_ : ClientHelloParser
}.

(** The collaborators' side: the transport, the event loop and a log. *)
Record World := {
  stream_ : option (Stream E);  (* underlying stream; [None] once the listener is removed *)
  in_flight_ : list WriteKind;  (* transport writes not yet completed, oldest first *)
  immediates_ : list Immediate;  (* closures queued by [SetImmediate], oldest first *)
  trace_ : list Event  (* calls made to the collaborators, most recent first *)
}.

(** [TLSWrap] (tls_wrap.cc); the base class and the world are reached
    through coercions, so [ssl_ s] and [trace_ s] read as in the source. *)
Record TLSWrap := {
  ssl_wrap :> SSLWrap;
  started_ : bool;
  established_ : bool;
  shutdown_ : bool;
  eof_ : bool;
  write_callback_scheduled_ : bool;
  in_dowrite_ : bool;
  write_size_ : nat;
  current_write_ : option WriteWrap;
  current_empty_write_ : option WriteWrap;
  pending_cleartext_input_ : bytes;
  enc_in_ : bytes;  (* incoming [NodeBIO], oldest byte first *)
  enc_out_ : bytes;  (* outgoing [NodeBIO], oldest byte first *)
  error_ : string;
  world :> World
}.

(** Field updates. *)
Definition on_ssl_wrap (f : SSLWrap -> SSLWrap) (s : TLSWrap) : TLSWrap :=
  {| ssl_wrap := f (ssl_wrap s); started_ := started_ s;
     established_ := established_ s; shutdown_ := shutdown_ s;
     eof_ := eof_ s;
     write_callback_scheduled_ := write_callback_scheduled_ s;
     in_dowrite_ := in_dowrite_ s; write_size_ := write_size_ s;
     current_write_ := current_write_ s;
     current_empty_write_ := current_empty_write_ s;
     pending_cleartext_input_ := pending_cleartext_input_ s;
     enc_in_ := enc_in_ s; enc_out_ := enc_out_ s; error_ := error_ s;
     world := world s |}.

Definition on_world (f : World -> World) (s : TLSWrap) : TLSWrap :=
  {| ssl_wrap := ssl_wrap s; started_ := started_ s;
     established_ := established_ s; shutdown_ := shutdown_ s;
     eof_ := eof_ s;
     write_callback_scheduled_ := write_callback_scheduled_ s;
     in_dowrite_ := in_dowrite_ s; write_size_ := write_size_ s;
     current_write_ := current_write_ s;
     current_empty_write_ := current_empty_write_ s;
     pending_cleartext_input_ := pending_cleartext_input_ s;
     enc_in_ := enc_in_ s; enc_out_ := enc_out_ s; error_ := error_ s;
     world := f (world s) |}.

Definition set_ssl_ (v : option (SSL E)) : TLSWrap -> TLSWrap :=
  on_ssl_wrap (fun b =>
    {| kind_ := kind_ b; ssl_ := v;
       session_callbacks_ := session_callbacks_ b;
       awaiting_new_session_ := awaiting_new_session_ b;
       cert_cb_ := cert_cb_ b; cert_cb_running_ := cert_cb_running_ b;
       hello_parser_ := hello_parser_ b |}).

Definition set_session_callbacks_ (v : bool) : TLSWrap -> TLSWrap :=
  on_ssl_wrap (fun b =>
    {| kind_ := kind_ b; ssl_ := ssl_ b; session_callbacks_ := v;
       awaiting_new_session_ := awaiting_new_session_ b;
       cert_cb_ := cert_cb_ b; cert_cb_running_ := cert_cb_running_ b;
       hello_parser_ := hello_parser_ b |}).

Definition set_awaiting_new_session_ (v : bool) : TLSWrap -> TLSWrap :=
  on_ssl_wrap (fun b =>
    {| kind_ := kind_ b; ssl_ := ssl_ b;
       session_callbacks_ := session_callbacks_ b; awaiting_new_session_ := v;
       cert_cb_ := cert_cb_ b; cert_cb_running_ := cert_cb_running_ b;
       hello_parser_ := hello_parser_ b |}).

Definition set_cert_cb_ (v : option CertCb) : TLSWrap -> TLSWrap :=
  on_ssl_wrap (fun b =>
    {| kind_ := kind_ b; ssl_ := ssl_ b;
       session_callbacks_ := session_callbacks_ b;
       awaiting_new_session_ := awaiting_new_session_ b; cert_cb_ := v;
       cert_cb_running_ := cert_cb_running_ b;
       hello_parser_ := hello_parser_ b |}).

Definition set_cert_cb_running_ (v : bool) : TLSWrap -> TLSWrap :=
  on_ssl_wrap (fun b =>
    {| kind_ := kind_ b; ssl_ := ssl_ b;
       session_callbacks_ := session_callbacks_ b;
       awaiting_new_session_ := awaiting_new_session_ b;
       cert_cb_ := cert_cb_ b; cert_cb_running_ := v;
       hello_parser_ := hello_parser_ b |}).

Definition set_hello_parser_ (v : ClientHelloParser) : TLSWrap -> TLSWrap :=
  on_ssl_wrap (fun b =>
    {| kind_ := kind_ b; ssl_ := ssl_ b;
       session_callbacks_ := session_callbacks_ b;
       awaiting_new_session_ := awaiting_new_session_ b;
       cert_cb_ := cert_cb_ b; cert_cb_running_ := cert_cb_running_ b;
       hello_parser_ := v |}).

Definition set_started_ (v : bool) (s : TLSWrap) : TLSWrap :=
  {| ssl_wrap := ssl_wrap s; started_ := v; established_ := established_ s;
     shutdown_ := shutdown_ s; eof_ := eof_ s;
     write_callback_scheduled_ := write_callback_scheduled_ s;
     in_dowrite_ := in_dowrite_ s; write_size_ := write_size_ s;
     current_write_ := current_write_ s;
     current_empty_write_ := current_empty_write_ s;
     pending_cleartext_input_ := pending_cleartext_input_ s;
     enc_in_ := enc_in_ s; enc_out_ := enc_out_ s; error_ := error_ s;
     world := world s |}.

Definition set_established_ (v : bool) (s : TLSWrap) : TLSWrap :=
  {| ssl_wrap := ssl_wrap s; started_ := started_ s; established_ := v;
     shutdown_ := shutdown_ s; eof_ := eof_ s;
     write_callback_scheduled_ := write_callback_scheduled_ s;
     in_dowrite_ := in_dowrite_ s; write_size_ := write_size_ s;
     current_write_ := current_write_ s;
     current_empty_write_ := current_empty_write_ s;
     pending_cleartext_input_ := pending_cleartext_input_ s;
     enc_in_ := enc_in_ s; enc_out_ := enc_out_ s; error_ := error_ s;
     world := world s |}.

Definition set_shutdown_ (v : bool) (s : TLSWrap) : TLSWrap :=
  {| ssl_wrap := ssl_wrap s; started_ := started_ s;
     established_ := established_ s; shutdown_ := v; eof_ := eof_ s;
     write_callback_scheduled_ := write_callback_scheduled_ s;
     in_dowrite_ := in_dowrite_ s; write_size_ := write_size_ s;
     current_write_ := current_write_ s;
     current_empty_write_ := current_empty_write_ s;
     pending_cleartext_input_ := pending_cleartext_input_ s;
     enc_in_ := enc_in_ s; enc_out_ := enc_out_ s; error_ := error_ s;
     world := world s |}.

Definition set_eof_ (v : bool) (s : TLSWrap) : TLSWrap :=
  {| ssl_wrap := ssl_wrap s; started_ := started_ s;
     established_ := established_ s; shutdown_ := shutdown_ s; eof_ := v;
     write_callback_scheduled_ := write_callback_scheduled_ s;
     in_dowrite_ := in_dowrite_ s; write_size_ := write_size_ s;
     current_write_ := current_write_ s;
     current_empty_write_ := current_empty_write_ s;
     pending_cleartext_input_ := pending_cleartext_input_ s;
     enc_in_ := enc_in_ s; enc_out_ := enc_out_ s; error_ := error_ s;
     world := world s |}.

Definition set_write_callback_scheduled_ (v : bool) (s : TLSWrap) : TLSWrap :=
  {| ssl_wrap := ssl_wrap s; started_ := started_ s;
     established_ := established_ s; shutdown_ := shutdown_ s;
     eof_ := eof_ s; write_callback_scheduled_ := v;
     in_dowrite_ := in_dowrite_ s; write_size_ := write_size_ s;
     current_write_ := current_write_ s;
     current_empty_write_ := current_empty_write_ s;
     pending_cleartext_input_ := pending_cleartext_input_ s;
     enc_in_ := enc_in_ s; enc_out_ := enc_out_ s; error_ := error_ s;
     world := world s |}.

Definition set_in_dowrite_ (v : bool) (s : TLSWrap) : TLSWrap :=
  {| ssl_wrap := ssl_wrap s; started_ := started_ s;
     established_ := established_ s; shutdown_ := shutdown_ s;
     eof_ := eof_ s;
     write_callback_scheduled_ := write_callback_scheduled_ s;
     in_dowrite_ := v; write_size_ := write_size_ s;
     current_write_ := current_write_ s;
     current_empty_write_ := current_empty_write_ s;
     pending_cleartext_input_ := pending_cleartext_input_ s;
     enc_in_ := enc_in_ s; enc_out_ := enc_out_ s; error_ := error_ s;
     world := world s |}.

Definition set_write_size_ (v : nat) (s : TLSWrap) : TLSWrap :=
  {| ssl_wrap := ssl_wrap s; started_ := started_ s;
     established_ := established_ s; shutdown_ := shutdown_ s;
     eof_ := eof_ s;
     write_callback_scheduled_ := write_callback_scheduled_ s;
     in_dowrite_ := in_dowrite_ s; write_size_ := v;
     current_write_ := current_write_ s;
     current_empty_write_ := current_empty_write_ s;
     pending_cleartext_input_ := pending_cleartext_input_ s;
     enc_in_ := enc_in_ s; enc_out_ := enc_out_ s; error_ := error_ s;
     world := world s |}.

Definition set_current_write_ (v : option WriteWrap) (s : TLSWrap) : TLSWrap :=
  {| ssl_wrap := ssl_wrap s; started_ := started_ s;
     established_ := established_ s; shutdown_ := shutdown_ s;
     eof_ := eof_ s;
     write_callback_scheduled_ := write_callback_scheduled_ s;
     in_dowrite_ := in_dowrite_ s; write_size_ := write_size_ s;
     current_write_ := v; current_empty_write_ := current_empty_write_ s;
     pending_cleartext_input_ := pending_cleartext_input_ s;
     enc_in_ := enc_in_ s; enc_out_ := enc_out_ s; error_ := error_ s;
     world := world s |}.

Definition set_current_empty_write_ (v : option WriteWrap) (s : TLSWrap) : TLSWrap :=
  {| ssl_wrap := ssl_wrap s; started_ := started_ s;
     established_ := established_ s; shutdown_ := shutdown_ s;
     eof_ := eof_ s;
     write_callback_scheduled_ := write_callback_scheduled_ s;
     in_dowrite_ := in_dowrite_ s; write_size_ := write_size_ s;
     current_write_ := current_write_ s; current_empty_write_ := v;
     pending_cleartext_input_ := pending_cleartext_input_ s;
     enc_in_ := enc_in_ s; enc_out_ := enc_out_ s; error_ := error_ s;
     world := world s |}.

Definition set_pending_cleartext_input_ (v : bytes) (s : TLSWrap) : TLSWrap :=
  {| ssl_wrap := ssl_wrap s; started_ := started_ s;
     established_ := established_ s; shutdown_ := shutdown_ s;
     eof_ := eof_ s;
     write_callback_scheduled_ := write_callback_scheduled_ s;
     in_dowrite_ := in_dowrite_ s; write_size_ := write_size_ s;
     current_write_ := current_write_ s;
     current_empty_write_ := current_empty_write_ s;
     pending_cleartext_input_ := v; enc_in_ := enc_in_ s;
     enc_out_ := enc_out_ s; error_ := error_ s; world := world s |}.

Definition set_enc_in_ (v : bytes) (s : TLSWrap) : TLSWrap :=
  {| ssl_wrap := ssl_wrap s; started_ := started_ s;
     established_ := established_ s; shutdown_ := shutdown_ s;
     eof_ := eof_ s;
     write_callback_scheduled_ := write_callback_scheduled_ s;
     in_dowrite_ := in_dowrite_ s; write_size_ := write_size_ s;
     current_write_ := current_write_ s;
     current_empty_write_ := current_empty_write_ s;
     pending_cleartext_input_ := pending_cleartext_input_ s; enc_in_ := v;
     enc_out_ := enc_out_ s; error_ := error_ s; world := world s |}.

Definition set_enc_out_ (v : bytes) (s : TLSWrap) : TLSWrap :=
  {| ssl_wrap := ssl_wrap s; started_ := started_ s;
     established_ := established_ s; shutdown_ := shutdown_ s;
     eof_ := eof_ s;
     write_callback_scheduled_ := write_callback_scheduled_ s;
     in_dowrite_ := in_dowrite_ s; write_size_ := write_size_ s;
     current_write_ := current_write_ s;
     current_empty_write_ := current_empty_write_ s;
     pending_cleartext_input_ := pending_cleartext_input_ s;
     enc_in_ := enc_in_ s; enc_out_ := v; error_ := error_ s;
     world := world s |}.

Definition set_error_ (v : string) (s : TLSWrap) : TLSWrap :=
  {| ssl_wrap := ssl_wrap s; started_ := started_ s;
     established_ := established_ s; shutdown_ := shutdown_ s;
     eof_ := eof_ s;
     write_callback_scheduled_ := write_callback_scheduled_ s;
     in_dowrite_ := in_dowrite_ s; write_size_ := write_size_ s;
     current_write_ := current_write_ s;
     current_empty_write_ := current_empty_write_ s;
     pending_cleartext_input_ := pending_cleartext_input_ s;
     enc_in_ := enc_in_ s; enc_out_ := enc_out_ s; error_ := v;
     world := world s |}.

Definition set_stream_ (v : option (Stream E)) : TLSWrap -> TLSWrap :=
  on_world (fun w =>
    {| stream_ := v; in_flight_ := in_flight_ w; immediates_ := immediates_ w;
       trace_ := trace_ w |}).

Definition set_in_flight_ (v : list WriteKind) : TLSWrap -> TLSWrap :=
  on_world (fun w =>
    {| stream_ := stream_ w; in_flight_ := v; immediates_ := immediates_ w;
       trace_ := trace_ w |}).

Definition set_immediates_ (v : list Immediate) : TLSWrap -> TLSWrap :=
  on_world (fun w =>
    {| stream_ := stream_ w; in_flight_ := in_flight_ w; immediates_ := v;
       trace_ := trace_ w |}).

Definition set_trace_ (v : list Event) : TLSWrap -> TLSWrap :=
  on_world (fun w =>
    {| stream_ := stream_ w; in_flight_ := in_flight_ w;
       immediates_ := immediates_ w; trace_ := v |}).

Definition log (e : Event) (s : TLSWrap) : TLSWrap :=
  set_trace_ (e :: trace_ s) s.

Definition SetImmediate (i : Immediate) (s : TLSWrap) : TLSWrap :=
  set_immediates_ (immediates_ s ++ [i]) s.

Definition is_server (s : TLSWrap) : bool :=
  match kind_ s with kServer => true | kClient => false end.

Definition is_client (s : TLSWrap) : bool :=
  match kind_ s with kClient => true | kServer => false end.

Definition is_awaiting_new_session (s : TLSWrap) : bool :=
  awaiting_new_session_ s.

Definition is_waiting_cert_cb (s : TLSWrap) : bool :=
  match cert_cb_ s with Some _ => true | None => false end.

Definition is_null {A : Type} (p : option A) : bool :=
  match p with Some _ => false | None => true end.

(** [BIO_pending] *)
Definition BIO_pending (b : bytes) : nat := length b.

(** Modelled from the spec: [NodeBIO::PeekMultiple] (node_crypto_bio.h is
    not among the sources) gathers up to a small fixed number of readable
    regions; it returns their total size, which is positive when the
    buffer is not empty and never more than what the buffer holds. *)
Definition PeekMultiple (b : bytes) : nat :=
  Nat.min (length b) (S (peek_limit E)).

(** The constructor with [InitSSL]: the engine and the two BIOs exist,
    nothing is pending, and the hello parser reads as ended. *)
Definition TLSWrap_new (kind : Kind) (ssl : SSL E) (stream : Stream E)
  : TLSWrap :=
  {| ssl_wrap := {| kind_ := kind; ssl_ := Some ssl;
                    session_callbacks_ := false;
                    awaiting_new_session_ := false;
                    cert_cb_ := None; cert_cb_running_ := false;
                    hello_parser_ := NeverStarted |};
     started_ := false; established_ := false; shutdown_ := false;
     eof_ := false; write_callback_scheduled_ := false;
     in_dowrite_ := false; write_size_ := 0%nat;
     current_write_ := None; current_empty_write_ := None;
     pending_cleartext_input_ := []; enc_in_ := []; enc_out_ := [];
     error_ := EmptyString;
     world := {| stream_ := Some stream; in_flight_ := [];
                 immediates_ := []; trace_ := [] |} |}.


(** *** [TLSWrap::InvokeQueued]

    [w->Done(status, error_str)] is recorded as [EvDone]; the completion
    callback of the request is taken to return without calling the
    wrap. *)

Definition InvokeQueued (status : Z) (error_str : option string)
    (s : TLSWrap) : bool * TLSWrap :=
  if negb (write_callback_scheduled_ s) then (false, s)
  else
    match current_write_ s with
    | Some w => (true, log (EvDone w status error_str)
                           (set_current_write_ None s))
    | None => (true, s)
    end.

(** *** [TLSWrap::DestroySSL] with [SSLWrap<Base>::DestroySSL] *)

Definition SSLWrap_DestroySSL (s : TLSWrap) : TLSWrap :=
  match ssl_ s with
  | None => s
  | Some _ => set_ssl_ None s
  end.

Definition DestroySSL (s : TLSWrap) : TLSWrap :=
  (* If there is a write happening, mark it as finished. *)
  let s := set_write_callback_scheduled_ true s in
  (* And destroy *)
  let s := snd (InvokeQueued UV_ECANCELED
                  (Some "Canceled because of SSL destruction"%string) s) in
  (* Destroy the SSL structure and friends *)
  let s := SSLWrap_DestroySSL s in
  let s := set_enc_in_ [] s in
  let s := set_enc_out_ [] s in
  match stream_ s with
  | Some _ => set_stream_ None s    (* [RemoveStreamListener] *)
  | None => s
  end.

(** *** [TLSWrap::GetSSLError]: the value for [onerror], if any *)

Definition GetSSLError (s : TLSWrap) (o : Outcome (SSL E))
  : result (option js_error) :=
  match ssl_ s with
  | None => Ok None
  | Some _ =>
      match o_err o with
      | SSL_ERROR_NONE | SSL_ERROR_WANT_READ | SSL_ERROR_WANT_WRITE
      | SSL_ERROR_WANT_X509_LOOKUP => Ok None
      | SSL_ERROR_ZERO_RETURN => Ok (Some zero_return_string)
      | SSL_ERROR_SSL | SSL_ERROR_SYSCALL =>
          Ok (Some (ssl_exception (o_msg o)))
      | SSL_ERROR_other _ => Crash "UNREACHABLE"
      end
  end.

(** The underlying stream's [Write]; the request joins [in_flight_] when
    the stream took it asynchronously. *)
Definition stream_write (k : WriteKind) (bufs : list bytes) (s : TLSWrap)
  : result (StreamWriteResult * TLSWrap) :=
  match stream_ s with
  | None => Crash "underlying_stream() is null"
  | Some st =>
      let '(res, st') := stream_Write E st bufs in
      let s := set_stream_ (Some st') s in
      let s := log (EvStreamWrite k bufs res) s in
      let s := if async res then set_in_flight_ (in_flight_ s ++ [k]) s
               else s in
      Ok (res, s)
  end.

(** *** [TLSWrap::EncOut] *)

Definition EncOut (s : TLSWrap) : result TLSWrap :=
  (* Ignore cycling data if ClientHello wasn't yet parsed *)
  if negb (IsEnded (hello_parser_ s)) then Ok s
  (* Write in progress *)
  else if negb (write_size_ s =? 0)%nat then Ok s
  (* Wait for `newSession` callback to be invoked *)
  else if is_awaiting_new_session s then Ok s
  else
    (* Split-off queue *)
    let s := if established_ s && negb (is_null (current_write_ s))
             then set_write_callback_scheduled_ true s else s in
    if is_null (ssl_ s) then Ok s
    (* No encrypted output ready to write to the underlying stream. *)
    else if (BIO_pending (enc_out_ s) =? 0)%nat then
      if (length (pending_cleartext_input_ s) =? 0)%nat then
        if negb (in_dowrite_ s) then Ok (snd (InvokeQueued 0 None s))
        else Ok (SetImmediate ImmInvokeQueued s)
      else Ok s
    else
      let s := set_write_size_ (PeekMultiple (enc_out_ s)) s in
      if (write_size_ s =? 0)%nat then Crash "CHECK(write_size_ != 0)"
      else
        '(res, s) <- stream_write DataWrite
                       [firstn (write_size_ s) (enc_out_ s)] s ;;
        if negb (err res =? 0) then Ok (snd (InvokeQueued (err res) None s))
        else if negb (async res) then
          (* Simulate asynchronous finishing *)
          Ok (SetImmediate (ImmAfterWrite DataWrite) s)
        else Ok s.

(** *** The ClientHello parser as the wrap starts it *)

(** [hello_parser_.Start(...)]: parsing begins once. *)
Definition parser_Start (s : TLSWrap) : TLSWrap :=
  match hello_parser_ s with
  | NeverStarted => set_hello_parser_ Active s
  | _ => s
  end.

(** [TLSWrap::EnableSessionCallbacks] *)
Definition EnableSessionCallbacks (s : TLSWrap) : result TLSWrap :=
  if is_null (ssl_ s) then Crash "CHECK_NOT_NULL(wrap->ssl_)"
  else
    let s := set_session_callbacks_ true s in
    (* Clients don't use the HelloParser. *)
    if is_client s then Ok s
    else Ok (parser_Start s).

(** [TLSWrap::EnableCertCb] with [SSLWrap<Base>::WaitForCertCb] *)
Definition EnableCertCb (s : TLSWrap) : TLSWrap :=
  set_cert_cb_ (Some OnClientHelloParseEnd_cb) s.

End Wrap.

(** *** The functions that reach JavaScript handlers

    A handler runs inside the function that calls it, and the calls it
    makes into the wrap run before that function goes on.  In this
    section [nested] stands for running such a list of calls; it is
    instantiated below, by [js], with the functions of the section
    themselves. *)

Module Code.

Section Pump.

Variable E : Env.

(** Bound on the iterations of the read loops of [ClearOut]. *)
Variable fuel : nat.

Variable nested : list Call -> TLSWrap E -> result (TLSWrap E).

(** **** Callbacks of [SSLWrap<Base>] the engine calls *)

(** [SSLWrap<Base>::NewSessionCallback]; [size] is [i2d_SSL_SESSION]. *)
Definition NewSessionCallback (size : Z) (onnewsession : list Call)
    (s : TLSWrap E) : result (Z * TLSWrap E) :=
  if negb (session_callbacks_ s) then Ok (0, s)
  (* Check if session is small enough to be stored *)
  else if size >? kMaxSessionSize then Ok (0, s)
  (* Serialize session *)
  else if size <? 0 then Crash "Buffer::New(env, size).ToLocalChecked()"
  else
    (* On servers, we pause the handshake until callback of 'newSession' *)
    let s := if is_server s then set_awaiting_new_session_ true s else s in
    s <- nested onnewsession (log EvOnNewSession s) ;;
    Ok (0, s).

(** The part of [SSLWrap<Base>::CertCbDone] after its CHECK, up to the
    call of the stored continuation; the flag tells whether [fire_cb] was
    reached. *)
Definition CertCbDone_body (ctx : SniContext) (s : TLSWrap E)
  : result (bool * TLSWrap E) :=
  let fire_cb :=
    Ok (true, set_cert_cb_ None (set_cert_cb_running_ false s)) in
  match ctx with
  | ctx_not_object => fire_cb
  | ctx_secure_context installs =>
      if installs then fire_cb else Ok (false, log EvThrow s)
  | ctx_wrong_shape =>
      (* Failure: incorrect SNI context object *)
      s <- nested (onerror E sni_context_type_error)
             (log (EvOnError sni_context_type_error) s) ;;
      Ok (false, s)
  end.

(** [SSLWrap<Base>::SSLCertCallback] *)
Definition SSLCertCallback (oncertcb : list Call) (s : TLSWrap E)
  : result (Z * TLSWrap E) :=
  if negb (is_server s) then Ok (1, s)
  else if negb (is_waiting_cert_cb s) then Ok (1, s)
  else if cert_cb_running_ s then
    (* Not an error. Suspend handshake with SSL_ERROR_WANT_X509_LOOKUP *)
    Ok (-1, s)
  else
    let s := set_cert_cb_running_ true s in
    s <- nested oncertcb (log EvOnCertCb s) ;;
    if negb (cert_cb_running_ s) then Ok (1, s)
    else (* Performing async action, wait... *) Ok (-1, s).

(** [TLSWrap::SSLInfoCallback] *)
Definition SSLInfoCallback (where_ : Z) (renegotiate_pending : bool)
    (onhandshakestart onhandshakedone : list Call) (s : TLSWrap E)
  : result (TLSWrap E) :=
  if Z.land where_ (Z.lor SSL_CB_HANDSHAKE_START SSL_CB_HANDSHAKE_DONE) =? 0
  then Ok s
  else
    s <- (if negb (Z.land where_ SSL_CB_HANDSHAKE_START =? 0)
          then nested onhandshakestart (log EvOnHandshakeStart s)
          else Ok s) ;;
    if negb (Z.land where_ SSL_CB_HANDSHAKE_DONE =? 0)
       && negb renegotiate_pending
    then nested onhandshakedone
           (log EvOnHandshakeDone (set_established_ true s))
    else Ok s.

Definition run_callback (cb : EngineCallback) (s : TLSWrap E)
  : result (TLSWrap E) :=
  match cb with
  | cb_info where_ pending onstart ondone =>
      SSLInfoCallback where_ pending onstart ondone s
  | cb_new_session size js => '(_, s) <- NewSessionCallback size js s ;; Ok s
  | cb_cert js => '(_, s) <- SSLCertCallback js s ;; Ok s
  end.

Fixpoint run_callbacks (cbs : list EngineCallback) (s : TLSWrap E)
  : result (TLSWrap E) :=
  match cbs with
  | [] => Ok s
  | cb :: rest => s <- run_callback cb s ;; run_callbacks rest s
  end.

(** The effect of one engine call on the wrap: the engine moves on, eats
    from [enc_in_], appends to [enc_out_] and makes its callbacks. *)
Definition engine_call (ev : Event) (o : Outcome (SSL E)) (s : TLSWrap E)
  : result (TLSWrap E) :=
  let s := set_ssl_ (Some (o_ssl o)) s in
  let s := set_enc_in_ (skipn (o_consumed o) (enc_in_ s)) s in
  let s := set_enc_out_ (enc_out_ s ++ o_produced o) s in
  run_callbacks (o_callbacks o) (log ev s).

(** **** [TLSWrap::ClearIn] *)

Definition ClearIn (s : TLSWrap E) : result (TLSWrap E) :=
  (* Ignore cycling data if ClientHello wasn't yet parsed *)
  if negb (IsEnded (hello_parser_ s)) then Ok s
  else
    match ssl_ s with
    | None => Ok s
    | Some ssl =>
        if (length (pending_cleartext_input_ s) =? 0)%nat then Ok s
        else
          let data := pending_cleartext_input_ s in
          let s := set_pending_cleartext_input_ [] s in
          let num := to_int (Z.of_nat (length data)) in
          let o := SSL_write E ssl data num (enc_in_ s) in
          let written := o_ret o in
          s <- engine_call (EvSSL_write data num written) o s ;;
          if negb ((written =? -1) || (written =? num))
          then Crash
            "CHECK(written == -1 || written == static_cast<int>(data.size()))"
          (* All written *)
          else if negb (written =? -1) then Ok s
          else
            (* Error or partial write *)
            arg <- GetSSLError s o ;;
            match arg with
            | Some e =>
                let s := set_write_callback_scheduled_ true s in
                Ok (snd (InvokeQueued UV_EPROTO (Some (error_text e)) s))
            | None =>
                (* Push back the not-yet-written data. *)
                Ok (set_pending_cleartext_input_ data s)
            end
    end.

(** **** [TLSWrap::ClearOut] *)

(** [EmitRead(nread, buf)]: the consumer's [onread] handler runs. *)
Definition EmitRead (nread : Z) (data : bytes) (s : TLSWrap E)
  : result (TLSWrap E) :=
  nested (onread E nread data) (log (EvEmitRead nread data) s).

(** The inner loop [while (read > 0)]: the plaintext of one [SSL_read] is
    handed to the consumer in pieces no larger than the buffer it
    allocates.  The flag tells that the engine was destroyed meanwhile. *)
Fixpoint emit_chunks (n : nat) (data : bytes) (s : TLSWrap E)
  : result (bool * TLSWrap E) :=
  match data with
  | [] => Ok (false, s)
  | _ :: _ =>
      match n with
      | O => OutOfFuel
      | S n' =>
          let avail := Nat.min (length data) (EmitAlloc E (length data)) in
          let chunk := firstn avail data in
          s <- EmitRead (Z.of_nat avail) chunk s ;;
          (* OnRead() calls into JS land which can result in the SSL
             context object being destroyed. *)
          if is_null (ssl_ s) then Ok (true, s)
          else emit_chunks n' (skipn avail data) s
      end
  end.

(** The outer loop [for (;;)]: it ends with the first [SSL_read] that
    returns nothing, whose outcome it hands back, or with [None] when
    the inner loop found the engine destroyed. *)
Fixpoint read_loop (n : nat) (s : TLSWrap E)
  : result (option (Outcome (SSL E)) * TLSWrap E) :=
  match n with
  | O => OutOfFuel
  | S n' =>
      match ssl_ s with
      | None => Crash "SSL_read(nullptr)"
      | Some ssl =>
          let o := SSL_read E ssl (enc_in_ s) in
          s <- engine_call (EvSSL_read (enc_in_ s)) o s ;;
          if o_ret o <=? 0 then Ok (Some o, s)
          else
            '(destroyed, s) <-
               emit_chunks n' (firstn (Z.to_nat (o_ret o)) (o_data o)) s ;;
            if destroyed then Ok (None, s) else read_loop n' s
      end
  end.

Definition ClearOut (s : TLSWrap E) : result (TLSWrap E) :=
  (* Ignore cycling data if ClientHello wasn't yet parsed *)
  if negb (IsEnded (hello_parser_ s)) then Ok s
  (* No reads after EOF *)
  else if eof_ s then Ok s
  else if is_null (ssl_ s) then Ok s
  else
    '(last, s) <- read_loop fuel s ;;
    match last with
    | None => Ok s
    | Some o =>
        match ssl_ s with
        | None => Crash "SSL_get_shutdown(nullptr)"
        | Some ssl =>
            let flags := SSL_get_shutdown E ssl in
            s <- (if negb (eof_ s)
                     && negb (Z.land flags SSL_RECEIVED_SHUTDOWN =? 0)
                  then EmitRead UV_EOF [] (set_eof_ true s)
                  else Ok s) ;;
            (* here [read <= 0] *)
            arg <- GetSSLError s o ;;
            (* Ignore ZERO_RETURN after EOF, it is basically not a error *)
            if is_zero_return (o_err o) && eof_ s then Ok s
            else
              match arg with
              | Some e =>
                  s <- (if negb (BIO_pending (enc_out_ s) =? 0)%nat
                        then EncOut s else Ok s) ;;
                  nested (onerror E e) (log (EvOnError e) s)
              | None => Ok s
              end
        end
    end.

(** **** [TLSWrap::Cycle] *)

(** Modelled from the spec: [Cycle] (tls_wrap.h is not among the
    sources) performs, in order, the drain of the pending cleartext
    write, [clear_out] and [enc_out]. *)
Definition Cycle (s : TLSWrap E) : result (TLSWrap E) :=
  s <- ClearIn s ;;
  s <- ClearOut s ;;
  EncOut s.

(** **** [TLSWrap::OnStreamAfterWrite] *)

Definition OnStreamAfterWrite (status : Z) (s : TLSWrap E)
  : result (TLSWrap E) :=
  match current_empty_write_ s with
  | Some finishing =>
      Ok (log (EvDone finishing status None) (set_current_empty_write_ None s))
  | None =>
      let status := if is_null (ssl_ s) then UV_ECANCELED else status in
      (* Handle error *)
      if negb (status =? 0) then
        if shutdown_ s then Ok s
        else Ok (snd (InvokeQueued status None s))
      else
        (* Commit *)
        let s := set_enc_out_ (skipn (write_size_ s) (enc_out_ s)) s in
        (* Ensure that the progress will be made *)
        s <- ClearIn s ;;
        (* Try writing more data *)
        let s := set_write_size_ 0%nat s in
        EncOut s
  end.

(** **** [TLSWrap::DoWrite] *)

Definition DoWrite (w : WriteWrap) (bufs : list bytes) (send_handle : bool)
    (s : TLSWrap E) : result (Z * TLSWrap E) :=
  if send_handle then Crash "CHECK_NULL(send_handle)"
  else
    match ssl_ s with
    | None =>
        Ok (UV_EPROTO, set_error_ "Write after DestroySSL"%string s)
    | Some _ =>
        let data := concat bufs in
        let len := length data in
        (* an empty write that finds no encrypted output goes to the
           underlying stream as it is *)
        r <- (if (len =? 0)%nat then
                s <- ClearOut s ;;
                if (BIO_pending (enc_out_ s) =? 0)%nat then
                  if negb (is_null (current_empty_write_ s))
                  then Crash "CHECK_NULL(current_empty_write_)"
                  else
                    let s := set_current_empty_write_ (Some w) s in
                    '(res, s) <- stream_write EmptyWrite bufs s ;;
                    let s := if negb (async res)
                             then SetImmediate (ImmAfterWrite EmptyWrite) s
                             else s in
                    Ok (inl (0, s))
                else Ok (inr s)
              else Ok (inr s)) ;;
        match r with
        | inl done => Ok done
        | inr s =>
            (* Store the current write wrap *)
            if negb (is_null (current_write_ s))
            then Crash "CHECK_NULL(current_write_)"
            else
              let s := set_current_write_ (Some w) s in
              (* Write encrypted data to underlying stream and call Done(). *)
              if (len =? 0)%nat then
                s <- EncOut s ;; Ok (0, s)
              else
                match ssl_ s with
                | None => Crash "ssl_ is null"
                | Some ssl =>
                    let num := to_int (Z.of_nat len) in
                    let o := SSL_write E ssl data num (enc_in_ s) in
                    let written := o_ret o in
                    s <- engine_call (EvSSL_write data num written) o s ;;
                    if negb ((written =? -1) || (written =? num))
                    then Crash
                      "CHECK(written == -1 || written == static_cast<int>(length))"
                    else
                      r <- (if written =? -1 then
                              arg <- GetSSLError s o ;;
                              match arg with
                              | Some e =>
                                  (* it's fatal, discard the data *)
                                  let s :=
                                    match e with
                                    | ssl_exception msg => set_error_ msg s
                                    | _ => s
                                    end in
                                  Ok (inl (UV_EPROTO,
                                           set_current_write_ None s))
                              | None =>
                                  (* save unwritten data so it can be
                                     written later by ClearIn() *)
                                  if negb (length
                                       (pending_cleartext_input_ s) =? 0)%nat
                                  then Crash
                                    "CHECK_EQ(pending_cleartext_input_.size(), 0)"
                                  else
                                    Ok (inr
                                      (set_pending_cleartext_input_ data s))
                              end
                            else Ok (inr s)) ;;
                      match r with
                      | inl failed => Ok failed
                      | inr s =>
                          (* Write any encrypted/handshake output that may
                             be ready. *)
                          let s := set_in_dowrite_ true s in
                          s <- EncOut s ;;
                          let s := set_in_dowrite_ false s in
                          Ok (0, s)
                      end
                end
        end
    end.

(** **** The ClientHello parser as the wrap drives it *)

(** [hello_parser_.End()]: the end callback given to [Start] is
    [OnClientHelloParseEnd], which runs [Cycle]. *)
Definition parser_End (s : TLSWrap E) : result (TLSWrap E) :=
  if IsEnded (hello_parser_ s) then Ok s
  else Cycle (set_hello_parser_ Ended s).

(** [hello_parser_.Parse(data, avail)]; a complete hello goes to
    [SSLWrap<Base>::OnClientHello], which calls the [onclienthello]
    handler. *)
Definition parser_Parse (data : bytes) (s : TLSWrap E)
  : result (TLSWrap E) :=
  let s := log (EvHelloParse data) s in
  match hello_parse E data with
  | NeedMore => Ok s
  | HelloComplete => nested (onclienthello E data) (log EvOnClientHello s)
  | ParseFailed => parser_End s
  end.

(** **** [TLSWrap::OnStreamRead] *)

Definition OnStreamRead (nread : Z) (buf : bytes) (s : TLSWrap E)
  : result (TLSWrap E) :=
  if nread <? 0 then
    (* Error should be emitted only after all data was read *)
    s <- ClearOut s ;;
    (* Ignore EOF if received close_notify *)
    if (nread =? UV_EOF) && eof_ s then Ok s
    else
      let s := if nread =? UV_EOF then set_eof_ true s else s in
      EmitRead nread [] s
  else
    if is_null (ssl_ s) then Crash "CHECK(ssl_)"
    else
      (* Commit the amount of data actually read *)
      let s := set_enc_in_ (enc_in_ s ++ firstn (Z.to_nat nread) buf) s in
      (* Parse ClientHello first, if we need to. *)
      if negb (IsEnded (hello_parser_ s)) then parser_Parse (enc_in_ s) s
      else (* Cycle OpenSSL's state *) Cycle s.

(** **** The remaining entry points *)

(** [TLSWrap::Start] *)
Definition Start (s : TLSWrap E) : result (TLSWrap E) :=
  if started_ s then Crash "CHECK(!wrap->started_)"
  else
    let s := set_started_ true s in
    if negb (is_client s) then Crash "CHECK(wrap->is_client())"
    else
      s <- ClearOut s ;;
      EncOut s.

(** [TLSWrap::DoShutdown] *)
Definition DoShutdown (s : TLSWrap E) : result (Z * TLSWrap E) :=
  s <- match ssl_ s with
       | None => Ok s
       | Some ssl =>
           let o := SSL_shutdown E ssl (enc_in_ s) in
           s <- engine_call EvSSL_shutdown o s ;;
           if o_ret o =? 0 then
             match ssl_ s with
             | None => Crash "SSL_shutdown(nullptr)"
             | Some ssl' =>
                 engine_call EvSSL_shutdown
                   (SSL_shutdown E ssl' (enc_in_ s)) s
             end
           else Ok s
       end ;;
  let s := set_shutdown_ true s in
  s <- EncOut s ;;
  match stream_ s with
  | None => Crash "stream_ is null"
  | Some st =>
      let '(r, st') := stream_DoShutdown E st in
      Ok (r, log EvStreamShutdown (set_stream_ (Some st') s))
  end.

(** [SSLWrap<Base>::EndParser] *)
Definition EndParser (s : TLSWrap E) : result (TLSWrap E) := parser_End s.

(** [SSLWrap<Base>::CertCbDone] *)
Definition CertCbDone (ctx : SniContext) (s : TLSWrap E)
  : result (TLSWrap E) :=
  if negb (is_waiting_cert_cb s && cert_cb_running_ s)
  then Crash "CHECK(w->is_waiting_cert_cb() && w->cert_cb_running_)"
  else
    '(fired, s) <- CertCbDone_body ctx s ;;
    if fired then (* cb(arg) *) Cycle s else Ok s.

(** [TLSWrap::NewSessionDoneCb] *)
Definition NewSessionDoneCb (s : TLSWrap E) : result (TLSWrap E) := Cycle s.

(** [SSLWrap<Base>::NewSessionDone] *)
Definition NewSessionDone (s : TLSWrap E) : result (TLSWrap E) :=
  NewSessionDoneCb (set_awaiting_new_session_ false s).

(** **** The wrap as a machine driven from outside *)

Definition run_immediate (i : Immediate) (s : TLSWrap E)
  : result (TLSWrap E) :=
  match i with
  | ImmInvokeQueued => Ok (snd (InvokeQueued 0 None s))
  | ImmAfterWrite _ => OnStreamAfterWrite 0 s
  end.

(** An operation the environment cannot perform (a completion without a
    write in flight, an empty immediate queue) leaves the wrap as it
    is. *)
Definition step (op : Op) (s : TLSWrap E) : result (TLSWrap E) :=
  match op with
  | OpStreamRead nread buf => OnStreamRead nread buf s
  | OpDoWrite w bufs => '(_, s) <- DoWrite w bufs false s ;; Ok s
  | OpAfterWrite status =>
      match in_flight_ s with
      | [] => Ok s
      | _ :: rest => OnStreamAfterWrite status (set_in_flight_ rest s)
      end
  | OpImmediate =>
      match immediates_ s with
      | [] => Ok s
      | i :: rest => run_immediate i (set_immediates_ rest s)
      end
  | OpStart => Start s
  | OpDoShutdown => '(_, s) <- DoShutdown s ;; Ok s
  | OpDestroySSL => Ok (DestroySSL s)
  | OpEnableSessionCallbacks => EnableSessionCallbacks s
  | OpEndParser => EndParser s
  | OpEnableCertCb => Ok (EnableCertCb s)
  | OpCertCbDone ctx => CertCbDone ctx s
  | OpNewSessionDone => NewSessionDone s
  end.

Fixpoint run (ops : list Op) (s : TLSWrap E) : result (TLSWrap E) :=
  match ops with
  | [] => Ok s
  | op :: rest => s <- step op s ;; run rest s
  end.

End Pump.

End Code.

(** *** JavaScript calling back

    The calls of a handler are run by the functions above, whose own
    handlers are served in the same way, one level further down.  The
    number that bounds the read loops bounds the depth as well. *)
Fixpoint js (E : Env) (n : nat) (cs : list Call) (s : TLSWrap E) {struct n}
  : result (TLSWrap E) :=
  match cs with
  | [] => Ok s
  | _ :: _ =>
      match n with
      | O => OutOfFuel
      | S n' => Code.run n' (@js E n') (map op_of cs) s
      end
  end.

Arguments js : clear implicits.

(** *** The functions of the wrap *)

Section Closed.

Variable E : Env.
Variable fuel : nat.
Implicit Type s : TLSWrap E.

Definition NewSessionCallback (size : Z) (onnewsession : list Call) s :=
  Code.NewSessionCallback (js E fuel) size onnewsession s.

Definition SSLCertCallback (oncertcb : list Call) s :=
  Code.SSLCertCallback (js E fuel) oncertcb s.

Definition ClearIn s := Code.ClearIn (js E fuel) s.

Definition ClearOut s := Code.ClearOut fuel (js E fuel) s.

Definition Cycle s := Code.Cycle fuel (js E fuel) s.

Definition OnStreamAfterWrite (status : Z) s :=
  Code.OnStreamAfterWrite (js E fuel) status s.

Definition DoWrite (w : WriteWrap) (bufs : list bytes) (send_handle : bool)
    s :=
  Code.DoWrite fuel (js E fuel) w bufs send_handle s.

Definition OnStreamRead (nread : Z) (buf : bytes) s :=
  Code.OnStreamRead fuel (js E fuel) nread buf s.

Definition DoShutdown s := Code.DoShutdown (js E fuel) s.

Definition EndParser s := Code.EndParser fuel (js E fuel) s.

Definition CertCbDone (ctx : SniContext) s :=
  Code.CertCbDone fuel (js E fuel) ctx s.

Definition NewSessionDone s := Code.NewSessionDone fuel (js E fuel) s.

Definition step (op : Op) s := Code.step fuel (js E fuel) op s.

Definition run (ops : list Op) s := Code.run fuel (js E fuel) ops s.

End Closed.

(** *** Observations on a wrap, used to state its properties *)

Section Observations.

Variable E : Env.
Variable fuel : nat.

(** Deliveries to the consumer of plaintext: data ([nread >= 0]) and the
    end of the stream ([nread = UV_EOF]). *)
Definition is_read (e : Event) : bool :=
  match e with
  | EvEmitRead nread _ => (0 <=? nread) || (nread =? UV_EOF)
  | _ => false
  end.

Definition is_eof (e : Event) : bool :=
  match e with
  | EvEmitRead nread _ => nread =? UV_EOF
  | _ => false
  end.

Definition reads (s : TLSWrap E) : list Event := filter is_read (trace_ s).

Definition eof_count (s : TLSWrap E) : nat :=
  length (filter is_eof (trace_ s)).

(** Calls of [SSL_write]: the payload handed over, the length given
    with it and what came back. *)
Definition ssl_writes (s : TLSWrap E) : list (bytes * Z * Z) :=
  flat_map (fun e => match e with
                     | EvSSL_write p n w => [(p, n, w)]
                     | _ => []
                     end) (trace_ s).

(** What the hello parser was shown. *)
Definition hello_parses (s : TLSWrap E) : list bytes :=
  flat_map (fun e => match e with
                     | EvHelloParse d => [d]
                     | _ => []
                     end) (trace_ s).

(** Calls into the engine, the transport or the consumer. *)
Definition is_engine_event (e : Event) : bool :=
  match e with
  | EvSSL_read _ | EvSSL_write _ _ _ | EvSSL_shutdown
  | EvStreamWrite _ _ _ | EvStreamShutdown | EvEmitRead _ _ => true
  | _ => false
  end.

Definition engine_events (s : TLSWrap E) : list Event :=
  filter is_engine_event (trace_ s).

Definition is_after_write (k : WriteKind) (i : Immediate) : bool :=
  match i, k with
  | ImmAfterWrite DataWrite, DataWrite => true
  | ImmAfterWrite EmptyWrite, EmptyWrite => true
  | _, _ => false
  end.

Definition is_kind (k k' : WriteKind) : bool :=
  match k, k' with
  | DataWrite, DataWrite | EmptyWrite, EmptyWrite => true
  | _, _ => false
  end.

(** Transport writes of kind [k] whose [OnStreamAfterWrite] is still to
    come: those the transport holds and those finished synchronously
    whose completion waits in the immediate queue. *)
Definition outstanding (k : WriteKind) (s : TLSWrap E) : nat :=
  (length (filter (is_kind k) (in_flight_ s))
   + length (filter (is_after_write k) (immediates_ s)))%nat.

(** A certificate decision is in flight. *)
Definition cert_pending (s : TLSWrap E) : Prop :=
  is_waiting_cert_cb s = true /\ cert_cb_running_ s = true.

(** Transport deliveries of whole buffers, one [OnStreamRead] each. *)
Fixpoint deliver (bufs : list bytes) (s : TLSWrap E) : result (TLSWrap E) :=
  match bufs with
  | [] => Ok s
  | b :: rest =>
      s <- OnStreamRead fuel (Z.of_nat (length b)) b s ;; deliver rest s
  end.

(** What the hello parser is shown when the buffers [bufs] arrive one
    by one on top of [acc]: the whole of the incoming BIO each time. *)
Fixpoint shown (acc : bytes) (bufs : list bytes) : list bytes :=
  match bufs with
  | [] => []
  | b :: rest => (acc ++ b) :: shown (acc ++ b) rest
  end.

(** The parser, shown [d], goes on parsing: it wants more, or it has a
    whole hello and the [onclienthello] handler returns without calling
    the wrap. *)
Definition stays_active (d : bytes) : Prop :=
  hello_parse E d = NeedMore
  \/ (hello_parse E d = HelloComplete /\ onclienthello E d = []).

(** *** Properties of the states a wrap can reach *)

(** A certificate decision runs only on a server that waits for one. *)
Definition cert_consistent (s : TLSWrap E) : Prop :=
  cert_cb_running_ s = true ->
  is_server s = true /\ is_waiting_cert_cb s = true.

(** Only a server waits for the [newSession] acknowledgement. *)
Definition session_consistent (s : TLSWrap E) : Prop :=
  awaiting_new_session_ s = true -> is_server s = true.

(** The end of the stream was signalled at most once, and not at all
    while [eof_] is unset. *)
Definition eof_once (s : TLSWrap E) : Prop :=
  (eof_count s <= 1)%nat /\ (eof_ s = false -> eof_count s = 0%nat).

Definition consistent (s : TLSWrap E) : Prop :=
  cert_consistent s /\ session_consistent s /\ eof_once s.

(** The discipline of transport writes.  [dx] and [ex] count a data and
    an empty write that the environment has taken out of its queues and
    whose [OnStreamAfterWrite] is running. *)
Definition write_discipline_with (dx ex : nat) (s : TLSWrap E) : Prop :=
  let d := (outstanding DataWrite s + dx)%nat in
  let e := (outstanding EmptyWrite s + ex)%nat in
  (d <= 1)%nat
  /\ (write_size_ s = 0%nat -> d = 0%nat)
  /\ (ssl_ s = None -> stream_ s = None)
  /\ (ssl_ s <> None ->
      (e <= 1)%nat
      /\ (current_empty_write_ s = None -> e = 1%nat ->
          d = 0%nat /\ write_size_ s <> 0%nat)
      /\ (write_size_ s <= length (enc_out_ s))%nat).

Definition write_discipline (s : TLSWrap E) : Prop :=
  write_discipline_with 0 0 s.

(** *** Wraps that agree on what a property looks at *)

(** The fields [consistent] reads. *)
Definition same_flags (s s' : TLSWrap E) : Prop :=
  kind_ s' = kind_ s
  /\ cert_cb_ s' = cert_cb_ s
  /\ cert_cb_running_ s' = cert_cb_running_ s
  /\ awaiting_new_session_ s' = awaiting_new_session_ s
  /\ eof_ s' = eof_ s
  /\ filter is_eof (trace_ s') = filter is_eof (trace_ s).

(** The end of the stream was seen and the deliveries made to the
    consumer so far are [r]. *)
Definition after_eof (r : list Event) (s : TLSWrap E) : Prop :=
  eof_ s = true /\ reads s = r.

Definition same_reads (s s' : TLSWrap E) : Prop :=
  eof_ s' = eof_ s
  /\ filter is_read (trace_ s') = filter is_read (trace_ s).

(** The fields [write_discipline_with] reads. *)
Definition same_writes (s s' : TLSWrap E) : Prop :=
  write_size_ s' = write_size_ s
  /\ current_empty_write_ s' = current_empty_write_ s
  /\ in_flight_ s' = in_flight_ s
  /\ immediates_ s' = immediates_ s
  /\ ssl_ s' = ssl_ s
  /\ stream_ s' = stream_ s
  /\ enc_out_ s' = enc_out_ s.

(** The write whose completion is being handled. *)
Definition popped_data (k : WriteKind) : nat :=
  match k with DataWrite => 1 | EmptyWrite => 0 end.

Definition popped_empty (k : WriteKind) : nat :=
  match k with DataWrite => 0 | EmptyWrite => 1 end.

(** [write_size_] holds a given value, which is not zero. *)
Definition busy (n : nat) (s : TLSWrap E) : Prop :=
  write_size_ s = S n.

Definition same_size (s s' : TLSWrap E) : Prop :=
  write_size_ s' = write_size_ s.

(** The trace holds [t] and what came after it. *)
Definition extends (t : list Event) (s : TLSWrap E) : Prop :=
  exists newer, trace_ s = newer ++ t.

Definition same_trace (s s' : TLSWrap E) : Prop :=
  trace_ s' = trace_ s.

(** Nothing was delivered to the consumer after the end of the stream:
    among the deliveries only the newest can be the end. *)
Definition eof_last (s : TLSWrap E) : Prop :=
  Forall (fun e => is_eof e = false) (tl (reads s)).

(** The end of the stream was not seen, and not signalled either. *)
Definition unended (s : TLSWrap E) : Prop :=
  eof_ s = false /\ Forall (fun e => is_eof e = false) (reads s).

(** The end of the stream is signalled only with [eof_] set, and nothing
    is delivered after it. *)
Definition orderly (s : TLSWrap E) : Prop :=
  (eof_ s = false -> Forall (fun e => is_eof e = false) (reads s))
  /\ eof_last s.

(** [eof_] and the deliveries made so far. *)
Definition delivered (b : bool) (r : list Event) (s : TLSWrap E) : Prop :=
  eof_ s = b /\ reads s = r.

(** Between the commit of a completed data write and the reset of
    [write_size_] ([OnStreamAfterWrite]): no data write is on its way,
    [write_size_] still holds the size of the completed one, and an empty
    write is on its way only with its request in
    [current_empty_write_]. *)
Definition committing (s : TLSWrap E) : Prop :=
  outstanding DataWrite s = 0%nat
  /\ write_size_ s <> 0%nat
  /\ (ssl_ s = None -> stream_ s = None)
  /\ (ssl_ s <> None ->
      (outstanding EmptyWrite s <= 1)%nat
      /\ (current_empty_write_ s = None ->
          outstanding EmptyWrite s = 0%nat)).

(** The engine has nothing for the wrap: a read finds no plaintext and
    would block, moves nothing and makes no callback. *)
Definition idle_read (ssl : SSL E) (enc_in : bytes) : Prop :=
  let o := SSL_read E ssl enc_in in
  o_ret o <= 0 /\ would_block (o_err o) = true
  /\ o_consumed o = 0%nat /\ o_produced o = [] /\ o_callbacks o = []
  /\ Z.land (SSL_get_shutdown E (o_ssl o)) SSL_RECEIVED_SHUTDOWN = 0.

End Observations.

(** *** Handlers that do not call back *)

Definition quiet_outcome (SSL : Type) (o : Outcome SSL) : Prop :=
  forall cb, In cb (o_callbacks o) -> reaction cb = [].

Record silent (E : Env) : Prop := {
  silent_onread : forall n d, onread E n d = [];
  silent_onerror : forall e, onerror E e = [];
  silent_onclienthello : forall d, onclienthello E d = [];
  silent_read : forall ssl b, quiet_outcome (SSL_read E ssl b);
  silent_write : forall ssl d n b, quiet_outcome (SSL_write E ssl d n b);
  silent_shutdown : forall ssl b, quiet_outcome (SSL_shutdown E ssl b)
}.
(** *** A small concrete world

    An engine that reads the first byte of the incoming BIO as a record
    type: 22 (handshake) is answered with two bytes of handshake output,
    a certificate callback, a new session and the handshake-done
    notification; 23 (application data) yields the rest as plaintext; 21
    (alert) is a close-notify.  Writing plaintext blocks until the
    handshake record was seen.  The transport takes every write
    asynchronously. *)

Module Demo.

Inductive phase := Handshaking | Established | PeerClosed.

Definition blocked (ssl : phase) : Outcome phase :=
  {| o_ret := -1; o_err := SSL_ERROR_WANT_READ; o_msg := EmptyString;
     o_data := []; o_consumed := 0; o_produced := []; o_callbacks := [];
     o_ssl := ssl |}.

Definition read (ssl : phase) (enc_in : bytes) : Outcome phase :=
  match enc_in with
  | [] => blocked ssl
  | x16 :: _ =>
      {| o_ret := -1; o_err := SSL_ERROR_WANT_READ; o_msg := EmptyString;
         o_data := []; o_consumed := length enc_in;
         o_produced := [x16; x03];
         o_callbacks := [cb_cert []; cb_new_session 100 [];
                         cb_info SSL_CB_HANDSHAKE_DONE false [] []];
         o_ssl := Established |}
  | x17 :: rest =>
      match rest with
      | [] => {| o_ret := -1; o_err := SSL_ERROR_WANT_READ;
                 o_msg := EmptyString; o_data := [];
                 o_consumed := 1; o_produced := []; o_callbacks := [];
                 o_ssl := ssl |}
      | _ => {| o_ret := Z.of_nat (length rest); o_err := SSL_ERROR_NONE;
                o_msg := EmptyString; o_data := rest;
                o_consumed := length enc_in; o_produced := [];
                o_callbacks := []; o_ssl := ssl |}
      end
  | x15 :: _ =>
      {| o_ret := 0; o_err := SSL_ERROR_ZERO_RETURN; o_msg := EmptyString;
         o_data := []; o_consumed := length enc_in; o_produced := [];
         o_callbacks := []; o_ssl := PeerClosed |}
  | _ =>
      {| o_ret := -1; o_err := SSL_ERROR_SSL;
         o_msg := "bad record"%string; o_data := [];
         o_consumed := length enc_in; o_produced := [x15];
         o_callbacks := []; o_ssl := ssl |}
  end.

Definition write (ssl : phase) (payload : bytes) (num : Z) (enc_in : bytes)
  : Outcome phase :=
  match ssl with
  | Handshaking => blocked ssl
  | _ =>
      {| o_ret := num; o_err := SSL_ERROR_NONE;
         o_msg := EmptyString; o_data := []; o_consumed := 0;
         o_produced := x17 :: payload; o_callbacks := []; o_ssl := ssl |}
  end.

Definition shutdown (ssl : phase) (enc_in : bytes) : Outcome phase :=
  {| o_ret := 1; o_err := SSL_ERROR_NONE; o_msg := EmptyString;
     o_data := []; o_consumed := 0; o_produced := [x15]; o_callbacks := [];
     o_ssl := ssl |}.

Definition get_shutdown (ssl : phase) : Z :=
  match ssl with PeerClosed => SSL_RECEIVED_SHUTDOWN | _ => 0 end.

Definition sniff (data : bytes) : ParseVerdict :=
  if (length data <? 5)%nat then NeedMore else HelloComplete.

Definition env : Env :=
  {| SSL := phase; Stream := unit;
     SSL_read := read; SSL_write := write; SSL_shutdown := shutdown;
     SSL_get_shutdown := get_shutdown;
     stream_Write := fun st _ => (WriteAsync, st);
     stream_DoShutdown := fun st => (0, st);
     EmitAlloc := fun n => n;
     onread := fun _ _ => [];
     onerror := fun _ => [];
     onclienthello := fun _ => [];
     hello_parse := sniff;
     peek_limit := 9 |}.

(** An engine with records of a fixed size: [x17 a b] is application
    data of two bytes, [x15] a close-notify. *)
Definition framed_read (ssl : phase) (enc_in : bytes) : Outcome phase :=
  match enc_in with
  | x17 :: a :: b :: _ =>
      {| o_ret := 2; o_err := SSL_ERROR_NONE; o_msg := EmptyString;
         o_data := [a; b]; o_consumed := 3; o_produced := [];
         o_callbacks := []; o_ssl := ssl |}
  | x15 :: _ =>
      {| o_ret := 0; o_err := SSL_ERROR_ZERO_RETURN; o_msg := EmptyString;
         o_data := []; o_consumed := 1; o_produced := [];
         o_callbacks := []; o_ssl := PeerClosed |}
  | _ => blocked ssl
  end.

(** A consumer that takes one byte at a time and whose [onread] handler
    answers the byte [x61] with an empty write. *)
Definition writing_back : Env :=
  {| SSL := phase; Stream := unit;
     SSL_read := framed_read; SSL_write := write; SSL_shutdown := shutdown;
     SSL_get_shutdown := get_shutdown;
     stream_Write := fun st _ => (WriteAsync, st);
     stream_DoShutdown := fun st => (0, st);
     EmitAlloc := fun _ => 1%nat;
     onread := fun _ d => if bytes_eqb d [x61] then [CallDoWrite 9%nat []]
                          else [];
     onerror := fun _ => [];
     onclienthello := fun _ => [];
     hello_parse := sniff;
     peek_limit := 9 |}.

Definition fuel : nat := 8.

Definition client : TLSWrap env := TLSWrap_new env kClient Handshaking tt.
Definition server : TLSWrap env := TLSWrap_new env kServer Handshaking tt.

(** The state of a wrap after a run, or the fresh wrap if the run
    stopped. *)
Definition after (ops : list Op) (s : TLSWrap env) : TLSWrap env :=
  match run fuel ops s with
  | Ok s' => s'
  | _ => s
  end.

End Demo.

End TLS.

(** * Theorems *)

(** ** Bytes *)

Lemma byte_eqb_eq (x y : byte) : Byte.eqb x y = true <-> x = y.
Proof.
  split.
  - apply Byte.byte_dec_bl.
  - apply Byte.byte_dec_lb.
Qed.

Lemma bytes_eqb_eq (a b : bytes) : bytes_eqb a b = true <-> a = b.
Proof.
  revert b; induction a as [|x a IH]; intros [|y b]; simpl;
    try (split; [discriminate | discriminate]); try tauto.
  rewrite andb_true_iff, byte_eqb_eq, IH.
  split.
  - intros [-> ->]; reflexivity.
  - intros H; inversion H; auto.
Qed.

Lemma bytes_eqb_refl (a : bytes) : bytes_eqb a a = true.
Proof. apply bytes_eqb_eq; reflexivity. Qed.

Lemma bytes_eqb_neq (a b : bytes) : bytes_eqb a b = false <-> a <> b.
Proof.
  rewrite <- bytes_eqb_eq. destruct (bytes_eqb a b); split; congruence.
Qed.

(** ** ALPN *)

Lemma select_loop_find (server client : list ALPN.proto) :
  ALPN.select_loop server client = find (fun p => ALPN.mem p client) server.
Proof.
  induction server as [|s rest IH]; simpl; [reflexivity|].
  destruct (ALPN.mem s client); auto.
Qed.

(** C3, as the claim words it, fails: with the server configured for
    [h2; http/1.1] and a client advertising [http/1.1; h2] the callback
    selects [h2], the server's first choice, where the client's
    preference order gives [http/1.1]. *)
Lemma C3_client_order_counterexample :
  let server := [ALPN.h2; ALPN.http11] in
  let client := [ALPN.http11; ALPN.h2] in
  ALPN.SelectALPNCallback server client = (SSL_TLSEXT_ERR_OK, Some ALPN.h2)
  /\ ALPN.first_common_in_client_order server client = Some ALPN.http11
  /\ snd (ALPN.SelectALPNCallback server client)
     <> ALPN.first_common_in_client_order server client.
Proof.
  vm_compute. repeat split; discriminate.
Qed.

(** C3 (amended): the callback selects the first name of the server's
    list that the client also advertises, and then returns
    [SSL_TLSEXT_ERR_OK]; without a common name it returns
    [SSL_TLSEXT_ERR_NOACK]; it never returns a fatal alert. *)
Theorem C3_alpn_server_order (server client : list ALPN.proto) :
  match find (fun p => ALPN.mem p client) server with
  | Some p =>
      ALPN.SelectALPNCallback server client = (SSL_TLSEXT_ERR_OK, Some p)
  | None =>
      fst (ALPN.SelectALPNCallback server client) = SSL_TLSEXT_ERR_NOACK
  end
  /\ fst (ALPN.SelectALPNCallback server client) <> SSL_TLSEXT_ERR_ALERT_FATAL.
Proof.
  unfold ALPN.SelectALPNCallback, ALPN.SSL_select_next_proto.
  rewrite select_loop_find.
  destruct (find _ server); simpl; split; try reflexivity; discriminate.
Qed.

(** ** Session tickets *)

(** C5: a decrypt request ([enc = 0]) whose key name differs from the
    active key name makes the callback return 0, the library's
    discard-the-ticket value, whatever the cryptographic calls would have
    returned; it is not the error value -1. *)
Theorem C5_ticket_name_mismatch (sc : Ticket.SecureContext) (c : Ticket.Crypto)
    (name : bytes)
    (Hname : firstn Ticket.name_size name
             <> firstn Ticket.name_size (Ticket.ticket_key_name_ sc)) :
  Ticket.TicketCompatibilityCallback sc c name 0 = (0, name)
  /\ fst (Ticket.TicketCompatibilityCallback sc c name 0) <> -1.
Proof.
  unfold Ticket.TicketCompatibilityCallback, Ticket.memcmp_differs.
  apply bytes_eqb_neq in Hname. rewrite Hname; simpl.
  split; [reflexivity | discriminate].
Qed.

Lemma C5_ticket_name_mismatch_witness :
  Ticket.TicketCompatibilityCallback
    {| Ticket.ticket_key_name_ := Ticket.key_a;
       Ticket.ticket_key_aes_ := Ticket.key_a;
       Ticket.ticket_key_hmac_ := Ticket.key_a |}
    {| Ticket.RAND_bytes := 1; Ticket.EVP_EncryptInit_ex := 1;
       Ticket.EVP_DecryptInit_ex := 1; Ticket.HMAC_Init_ex := 1 |}
    Ticket.key_b 0 = (0, Ticket.key_b)
  /\ fst (Ticket.TicketCompatibilityCallback
    {| Ticket.ticket_key_name_ := Ticket.key_a;
       Ticket.ticket_key_aes_ := Ticket.key_a;
       Ticket.ticket_key_hmac_ := Ticket.key_a |}
    {| Ticket.RAND_bytes := 1; Ticket.EVP_EncryptInit_ex := 1;
       Ticket.EVP_DecryptInit_ex := 1; Ticket.HMAC_Init_ex := 1 |}
    Ticket.key_b 0) <> -1.
Proof.
  apply C5_ticket_name_mismatch. vm_compute. discriminate.
Defined.
(** ** The stream pump *)

Import TLS.

Arguments InvokeQueued : simpl never.
Arguments DestroySSL : simpl never.
Arguments stream_write : simpl never.
Arguments EncOut : simpl never.
Arguments PeekMultiple : simpl never.
Arguments EnableSessionCallbacks : simpl never.
Arguments Code.NewSessionCallback : simpl never.
Arguments Code.CertCbDone_body : simpl never.
Arguments Code.SSLCertCallback : simpl never.
Arguments Code.SSLInfoCallback : simpl never.
Arguments Code.run_callback : simpl never.
Arguments Code.engine_call : simpl never.
Arguments Code.ClearIn : simpl never.
Arguments Code.EmitRead : simpl never.
Arguments Code.ClearOut : simpl never.
Arguments Code.Cycle : simpl never.
Arguments Code.OnStreamAfterWrite : simpl never.
Arguments Code.DoWrite : simpl never.
Arguments Code.OnStreamRead : simpl never.
Arguments Code.parser_End : simpl never.
Arguments Code.parser_Parse : simpl never.
Arguments Code.Start : simpl never.
Arguments Code.DoShutdown : simpl never.
Arguments Code.CertCbDone : simpl never.
Arguments Code.NewSessionDone : simpl never.
Arguments Code.step : simpl never.
Arguments js : simpl never.
Arguments NewSessionCallback : simpl never.
Arguments SSLCertCallback : simpl never.
Arguments ClearIn : simpl never.
Arguments ClearOut : simpl never.
Arguments Cycle : simpl never.
Arguments OnStreamAfterWrite : simpl never.
Arguments DoWrite : simpl never.
Arguments OnStreamRead : simpl never.
Arguments DoShutdown : simpl never.
Arguments EndParser : simpl never.
Arguments CertCbDone : simpl never.
Arguments NewSessionDone : simpl never.
Arguments step : simpl never.

(** Case analysis along the control flow of an operation that
    returned. *)
Ltac break_step :=
  match goal with
  | H : Ok _ = Ok _ |- _ => injection H as H; try subst
  | H : Crash _ = Ok _ |- _ => discriminate H
  | H : OutOfFuel = Ok _ |- _ => discriminate H
  | H : (_, _) = (_, _) |- _ => injection H as ? ?; try subst
  | H : inl _ = inl _ |- _ => injection H as H; try subst
  | H : inr _ = inr _ |- _ => injection H as H; try subst
  | H : inl _ = inr _ |- _ => discriminate H
  | H : inr _ = inl _ |- _ => discriminate H
  | H : context [match ?x with _ => _ end] |- _ => destruct x eqn:?
  | |- context [match ?x with _ => _ end] => destruct x eqn:?
  end.

Ltac break :=
  repeat (simpl in *; unfold bind in *; break_step); simpl in *.

(** An update of a field that a property does not look at: [lem] carries
    the property over from the wrap before the update. *)
Ltac frame_with lem :=
  match goal with
  | |- _ (?f ?v ?s) =>
      apply (@lem _ s); [solve [repeat split; reflexivity] | ]
  end.

Lemma is_null_true {A : Type} (p : option A) : is_null p = true <-> p = None.
Proof. destruct p; simpl; split; congruence. Qed.

Lemma is_null_false {A : Type} (p : option A) :
  is_null p = false <-> p <> None.
Proof. destruct p; simpl; split; congruence. Qed.

(** A handler that makes no call leaves the wrap alone. *)
Lemma js_nil (E : Env) (fuel : nat) (s : TLSWrap E) : js E fuel [] s = Ok s.
Proof. destruct fuel; reflexivity. Qed.

(** *** Writing after destruction (C9) *)

(** C9: once the engine is destroyed ([ssl_] is null) [DoWrite] returns
    [UV_EPROTO] at once; it records the message "Write after DestroySSL"
    in [error_] and changes nothing else: the request is not stored, no
    payload is kept and no collaborator is called. *)
Theorem C9_write_after_destroy (E : Env) (fuel : nat) (s : TLSWrap E)
    (w : WriteWrap) (bufs : list bytes) (Hnull : ssl_ s = None) :
  DoWrite fuel w bufs false s
  = Ok (UV_EPROTO, set_error_ "Write after DestroySSL" s)
  /\ UV_EPROTO <> 0.
Proof.
  split; [|discriminate].
  unfold DoWrite, Code.DoWrite. rewrite Hnull. reflexivity.
Qed.

Lemma C9_write_after_destroy_witness :
  DoWrite Demo.fuel 1%nat [[x68; x69]] false (DestroySSL Demo.client)
  = Ok (UV_EPROTO,
        set_error_ "Write after DestroySSL" (DestroySSL Demo.client))
  /\ UV_EPROTO <> 0.
Proof.
  apply C9_write_after_destroy. reflexivity.
Defined.

(** *** Destruction (C4) *)

(** C4, as the claim words it, fails: a server whose certificate decision
    is in flight is destroyed, and the decision is still in flight
    afterwards; nobody was called about it. *)
Lemma C4_cert_continuation_counterexample :
  let s := Demo.after [OpEnableCertCb; OpStreamRead 1 [x16]] Demo.server in
  cert_pending s
  /\ cert_pending (DestroySSL s)
  /\ trace_ (DestroySSL s) = trace_ s.
Proof.
  vm_compute. repeat split; reflexivity.
Qed.

(** C4 (amended): [DestroySSL] completes the write request held in
    [current_write_], if there is one, with [UV_ECANCELED] before it
    returns, releases the engine and both BIOs and stops listening to
    the stream; a second call changes nothing.  It leaves the
    certificate continuation ([cert_cb_], [cert_cb_running_]) and a
    pending empty write ([current_empty_write_]) as they were. *)
Theorem C4_destroy (E : Env) (s : TLSWrap E) :
  let s' := DestroySSL s in
  trace_ s' =
    match current_write_ s with
    | Some w =>
        EvDone w UV_ECANCELED (Some "Canceled because of SSL destruction"%string)
        :: trace_ s
    | None => trace_ s
    end
  /\ current_write_ s' = None
  /\ ssl_ s' = None /\ enc_in_ s' = [] /\ enc_out_ s' = []
  /\ stream_ s' = None
  /\ DestroySSL s' = s'
  /\ cert_cb_ s' = cert_cb_ s
  /\ cert_cb_running_ s' = cert_cb_running_ s
  /\ current_empty_write_ s' = current_empty_write_ s.
Proof.
  destruct s as [[k ssl sc aw cb cr hp] st es sh eo wcs idw ws cw cew pci
                 ei eout er [str fl im tr]].
  destruct cw, ssl, str; cbv; repeat split; reflexivity.
Qed.

(** *** The trace only grows *)

Lemma extends_frame (E : Env) (s s' : TLSWrap E) (t : list Event) :
  same_trace s s' -> extends t s -> extends t s'.
Proof. unfold same_trace, extends. intros ->. tauto. Qed.

Create HintDb ext discriminated.

#[export] Hint Extern 2 (extends _ (_ _ _)) =>
  frame_with extends_frame : ext.

Lemma extends_refl (E : Env) (s : TLSWrap E) : extends (trace_ s) s.
Proof. exists []. reflexivity. Qed.

Lemma extends_log (E : Env) (t : list Event) (e : Event) (s : TLSWrap E) :
  extends t s -> extends t (log e s).
Proof. intros [l H]. exists (e :: l). simpl. rewrite H. reflexivity. Qed.

Lemma extends_trans (E : Env) (t : list Event) (s s' : TLSWrap E) :
  extends t s -> extends (trace_ s) s' -> extends t s'.
Proof.
  intros [l H] [l' H']. exists (l' ++ l). rewrite H', H, app_assoc.
  reflexivity.
Qed.

Section Extends.

Variable E : Env.
Variable fuel : nat.
Variable nested : list Call -> TLSWrap E -> result (TLSWrap E).
Variable t : list Event.
Implicit Type s : TLSWrap E.

Hypothesis nested_extends :
  forall cs s s', nested cs s = Ok s' -> extends t s -> extends t s'.

Hint Resolve nested_extends : ext.

Lemma extends_SetImmediate i s : extends t s -> extends t (SetImmediate i s).
Proof. unfold SetImmediate. auto with ext. Qed.

Lemma extends_InvokeQueued st m s :
  extends t s -> extends t (snd (InvokeQueued st m s)).
Proof.
  unfold InvokeQueued. intros H. break; auto using extends_log with ext.
Qed.

Lemma extends_DestroySSL s : extends t s -> extends t (DestroySSL s).
Proof.
  unfold DestroySSL, SSLWrap_DestroySSL. intros H.
  break; repeat frame_with extends_frame;
    apply extends_InvokeQueued; auto with ext.
Qed.

Hint Resolve extends_log extends_SetImmediate extends_InvokeQueued
  extends_DestroySSL : ext.

Lemma extends_stream_write k bufs s r s' :
  stream_write k bufs s = Ok (r, s') -> extends t s -> extends t s'.
Proof. unfold stream_write. intros H H0. break; auto 8 with ext. Qed.
Hint Resolve extends_stream_write : ext.

Lemma extends_EncOut s s' : EncOut s = Ok s' -> extends t s -> extends t s'.
Proof. unfold EncOut. intros H H0. break; eauto 8 with ext. Qed.
Hint Resolve extends_EncOut : ext.

Lemma extends_EnableSessionCallbacks s s' :
  EnableSessionCallbacks s = Ok s' -> extends t s -> extends t s'.
Proof.
  unfold EnableSessionCallbacks, parser_Start. intros H H0.
  break; eauto 8 with ext.
Qed.

Lemma extends_NewSessionCallback size js s r s' :
  Code.NewSessionCallback nested size js s = Ok (r, s') ->
  extends t s -> extends t s'.
Proof. unfold Code.NewSessionCallback. intros H H0. break; eauto 8 with ext. Qed.

Lemma extends_CertCbDone_body ctx s r s' :
  Code.CertCbDone_body nested ctx s = Ok (r, s') ->
  extends t s -> extends t s'.
Proof. unfold Code.CertCbDone_body. intros H H0. break; eauto 8 with ext. Qed.

Lemma extends_SSLCertCallback js s r s' :
  Code.SSLCertCallback nested js s = Ok (r, s') ->
  extends t s -> extends t s'.
Proof. unfold Code.SSLCertCallback. intros H H0. break; eauto 8 with ext. Qed.

Lemma extends_SSLInfoCallback w p a b s s' :
  Code.SSLInfoCallback nested w p a b s = Ok s' ->
  extends t s -> extends t s'.
Proof. unfold Code.SSLInfoCallback. intros H H0. break; eauto 8 with ext. Qed.

Hint Resolve extends_EnableSessionCallbacks extends_NewSessionCallback
  extends_CertCbDone_body extends_SSLCertCallback extends_SSLInfoCallback
  : ext.

Lemma extends_run_callback cb s s' :
  Code.run_callback nested cb s = Ok s' -> extends t s -> extends t s'.
Proof. unfold Code.run_callback. intros H H0. break; eauto 8 with ext. Qed.

Lemma extends_run_callbacks cbs :
  forall s s', Code.run_callbacks nested cbs s = Ok s' ->
  extends t s -> extends t s'.
Proof.
  induction cbs as [|cb cbs IH]; intros s s' H H0; simpl in H.
  - injection H as <-; auto.
  - unfold bind in H.
    destruct (Code.run_callback nested cb s) eqn:Hc; try discriminate.
    eauto using extends_run_callback.
Qed.

Lemma extends_engine_call ev o s s' :
  Code.engine_call nested ev o s = Ok s' -> extends t s -> extends t s'.
Proof.
  unfold Code.engine_call. intros H H0.
  eapply extends_run_callbacks; [exact H|]. auto 8 with ext.
Qed.
Hint Resolve extends_engine_call : ext.

Lemma extends_ClearIn s s' :
  Code.ClearIn nested s = Ok s' -> extends t s -> extends t s'.
Proof. unfold Code.ClearIn. intros H H0. break; eauto 8 with ext. Qed.
Hint Resolve extends_ClearIn : ext.

Lemma extends_EmitRead n d s s' :
  Code.EmitRead nested n d s = Ok s' -> extends t s -> extends t s'.
Proof. unfold Code.EmitRead. intros H H0. eauto 8 with ext. Qed.
Hint Resolve extends_EmitRead : ext.

Lemma extends_emit_chunks n :
  forall data s d s',
  Code.emit_chunks nested n data s = Ok (d, s') ->
  extends t s -> extends t s'.
Proof.
  induction n as [|n IH]; intros data s d s' H H0; destruct data; simpl in H;
    try discriminate; try (injection H as <- <-; assumption).
  unfold bind in H.
  destruct (Code.EmitRead _ _ _ _) as [s1| |] eqn:He; try discriminate.
  apply extends_EmitRead in He; [|exact H0].
  destruct (is_null _); [injection H as <- <-; assumption | eauto].
Qed.
Hint Resolve extends_emit_chunks : ext.

Lemma extends_read_loop n :
  forall s r s',
  Code.read_loop nested n s = Ok (r, s') -> extends t s -> extends t s'.
Proof.
  induction n as [|n IH]; intros s r s' H H0; simpl in H; try discriminate.
  destruct (ssl_ s) eqn:Hs; [|discriminate].
  unfold bind in H.
  destruct (Code.engine_call _ _ _ _) as [s1| |] eqn:Hc; try discriminate.
  apply extends_engine_call in Hc; [|exact H0].
  destruct (o_ret _ <=? 0); [injection H as <- <-; assumption|].
  destruct (Code.emit_chunks _ _ _ _) as [[d s2]| |] eqn:He; try discriminate.
  apply extends_emit_chunks in He; [|exact Hc].
  destruct d; [injection H as <- <-; assumption | eauto].
Qed.
Hint Resolve extends_read_loop : ext.

Lemma extends_ClearOut s s' :
  Code.ClearOut fuel nested s = Ok s' -> extends t s -> extends t s'.
Proof. unfold Code.ClearOut. intros H H0. break; eauto 10 with ext. Qed.
Hint Resolve extends_ClearOut : ext.

Lemma extends_Cycle s s' :
  Code.Cycle fuel nested s = Ok s' -> extends t s -> extends t s'.
Proof. unfold Code.Cycle. intros H H0. break; eauto 8 with ext. Qed.
Hint Resolve extends_Cycle : ext.

Lemma extends_OnStreamAfterWrite st s s' :
  Code.OnStreamAfterWrite nested st s = Ok s' ->
  extends t s -> extends t s'.
Proof.
  unfold Code.OnStreamAfterWrite. intros H H0. break; eauto 8 with ext.
Qed.
Hint Resolve extends_OnStreamAfterWrite : ext.

Lemma extends_DoWrite w bufs sh s r s' :
  Code.DoWrite fuel nested w bufs sh s = Ok (r, s') ->
  extends t s -> extends t s'.
Proof. unfold Code.DoWrite. intros H H0. break; eauto 10 with ext. Qed.
Hint Resolve extends_DoWrite : ext.

Lemma extends_parser_End s s' :
  Code.parser_End fuel nested s = Ok s' -> extends t s -> extends t s'.
Proof. unfold Code.parser_End. intros H H0. break; eauto 8 with ext. Qed.
Hint Resolve extends_parser_End : ext.

Lemma extends_parser_Parse d s s' :
  Code.parser_Parse fuel nested d s = Ok s' -> extends t s -> extends t s'.
Proof. unfold Code.parser_Parse. intros H H0. break; eauto 8 with ext. Qed.
Hint Resolve extends_parser_Parse : ext.

Lemma extends_OnStreamRead nread buf s s' :
  Code.OnStreamRead fuel nested nread buf s = Ok s' ->
  extends t s -> extends t s'.
Proof. unfold Code.OnStreamRead. intros H H0. break; eauto 8 with ext. Qed.

Lemma extends_Start s s' :
  Code.Start fuel nested s = Ok s' -> extends t s -> extends t s'.
Proof. unfold Code.Start. intros H H0. break; eauto 8 with ext. Qed.

Lemma extends_DoShutdown s r s' :
  Code.DoShutdown nested s = Ok (r, s') -> extends t s -> extends t s'.
Proof. unfold Code.DoShutdown. intros H H0. break; eauto 10 with ext. Qed.

Lemma extends_CertCbDone ctx s s' :
  Code.CertCbDone fuel nested ctx s = Ok s' -> extends t s -> extends t s'.
Proof. unfold Code.CertCbDone. intros H H0. break; eauto 8 with ext. Qed.

Lemma extends_NewSessionDone s s' :
  Code.NewSessionDone fuel nested s = Ok s' -> extends t s -> extends t s'.
Proof.
  unfold Code.NewSessionDone, Code.NewSessionDoneCb. intros H H0.
  eapply extends_Cycle; [exact H|]. auto with ext.
Qed.

Hint Resolve extends_OnStreamRead extends_Start extends_DoShutdown
  extends_CertCbDone extends_NewSessionDone : ext.

Lemma extends_step_in op s s' :
  Code.step fuel nested op s = Ok s' -> extends t s -> extends t s'.
Proof.
  unfold Code.step, Code.EndParser, Code.run_immediate, EnableCertCb.
  intros H H0. destruct op; break; eauto 8 with ext.
Qed.

Lemma extends_run_in ops :
  forall s s', Code.run fuel nested ops s = Ok s' ->
  extends t s -> extends t s'.
Proof.
  induction ops as [|op ops IH]; intros s s' H H0; simpl in H.
  - injection H as <-; auto.
  - unfold bind in H.
    destruct (Code.step fuel nested op s) eqn:Hs; try discriminate.
    eauto using extends_step_in.
Qed.

End Extends.

Lemma extends_js (E : Env) (t : list Event) (fuel : nat) :
  forall cs (s s' : TLSWrap E),
  js E fuel cs s = Ok s' -> extends t s -> extends t s'.
Proof.
  induction fuel as [|n IH]; intros cs s s' H H0; destruct cs;
    try (rewrite js_nil in H; injection H as <-; assumption);
    try discriminate.
  eapply extends_run_in; [exact IH | exact H | exact H0].
Qed.

#[export] Hint Resolve extends_js extends_log extends_SetImmediate
  extends_InvokeQueued extends_DestroySSL extends_stream_write
  extends_EncOut extends_engine_call extends_ClearIn extends_EmitRead
  extends_ClearOut extends_Cycle : ext.

(** *** The sniffer gate (C1) *)

Lemma EncOut_active (E : Env) (s : TLSWrap E) :
  IsEnded (hello_parser_ s) = false -> EncOut s = Ok s.
Proof. intros H. unfold EncOut. rewrite H. reflexivity. Qed.

Lemma ClearOut_active (E : Env) (fuel : nat) (s : TLSWrap E) :
  IsEnded (hello_parser_ s) = false -> ClearOut fuel s = Ok s.
Proof. intros H. unfold ClearOut, Code.ClearOut. rewrite H. reflexivity. Qed.

Lemma ClearIn_active (E : Env) (fuel : nat) (s : TLSWrap E) :
  IsEnded (hello_parser_ s) = false -> ClearIn fuel s = Ok s.
Proof. intros H. unfold ClearIn, Code.ClearIn. rewrite H. reflexivity. Qed.

(** One delivery while the parser is active and goes on parsing: the
    bytes are appended to [enc_in_] and shown to the parser, nothing
    else. *)
Lemma OnStreamRead_active (E : Env) (fuel : nat) (s : TLSWrap E)
    (b : bytes) :
  IsEnded (hello_parser_ s) = false ->
  ssl_ s <> None ->
  stays_active E (enc_in_ s ++ b) ->
  exists s',
    OnStreamRead fuel (Z.of_nat (length b)) b s = Ok s'
    /\ hello_parser_ s' = hello_parser_ s
    /\ enc_in_ s' = enc_in_ s ++ b
    /\ ssl_ s' = ssl_ s
    /\ enc_out_ s' = enc_out_ s
    /\ eof_ s' = eof_ s
    /\ pending_cleartext_input_ s' = pending_cleartext_input_ s
    /\ engine_events s' = engine_events s
    /\ hello_parses s' = (enc_in_ s ++ b) :: hello_parses s.
Proof.
  intros Hact Hssl Hv.
  unfold OnStreamRead, Code.OnStreamRead.
  destruct (Z.of_nat (length b) <? 0) eqn:Hneg;
    [apply Z.ltb_lt in Hneg; lia|].
  apply is_null_false in Hssl. rewrite Hssl.
  rewrite Nat2Z.id, firstn_all. simpl. rewrite Hact. simpl.
  unfold Code.parser_Parse. simpl.
  destruct Hv as [Hp | [Hp Hjs]]; rewrite Hp; [|rewrite Hjs, js_nil];
    eexists; (split; [reflexivity|]); simpl; repeat split; reflexivity.
Qed.

(** An engine call puts its event on the trace before anything else. *)
Lemma engine_call_first (E : Env) (fuel : nat) (ev : Event)
    (o : Outcome (SSL E)) (s s' : TLSWrap E) :
  Code.engine_call (js E fuel) ev o s = Ok s' ->
  extends (ev :: trace_ s) s'.
Proof.
  unfold Code.engine_call. intros H.
  eapply extends_run_callbacks; [|exact H|].
  - intros cs t t'. apply extends_js.
  - exists []. reflexivity.
Qed.

(** [ClearOut], when it reads at all, begins by showing the engine the
    whole of [enc_in_]. *)
Lemma ClearOut_first (E : Env) (fuel : nat) (s s' : TLSWrap E) :
  IsEnded (hello_parser_ s) = true ->
  eof_ s = false ->
  ssl_ s <> None ->
  ClearOut fuel s = Ok s' ->
  extends (EvSSL_read (enc_in_ s) :: trace_ s) s'.
Proof.
  intros Hend Heof Hssl H.
  unfold ClearOut, Code.ClearOut in H.
  rewrite Hend, Heof in H. apply is_null_false in Hssl. rewrite Hssl in H.
  simpl in H. unfold bind in H.
  destruct (Code.read_loop (js E fuel) fuel s) as [[last s1]| |] eqn:Hloop;
    try discriminate.
  assert (H1 : extends (EvSSL_read (enc_in_ s) :: trace_ s) s1).
  { clear H. destruct fuel as [|n]; simpl in Hloop; [discriminate|].
    destruct (ssl_ s) as [ssl|] eqn:Hs; [|discriminate].
    unfold bind in Hloop.
    destruct (Code.engine_call _ _ _ _) as [s2| |] eqn:Hc; try discriminate.
    apply engine_call_first in Hc.
    destruct (o_ret _ <=? 0); [injection Hloop as <- <-; assumption|].
    destruct (Code.emit_chunks _ _ _ _) as [[d s3]| |] eqn:He;
      try discriminate.
    eapply extends_emit_chunks in He; [| intros ? ? ?; apply extends_js
                                       | exact Hc].
    destruct d; [injection Hloop as <- <-; assumption|].
    eapply extends_read_loop in Hloop; [exact Hloop
                                       | intros ? ? ?; apply extends_js
                                       | exact He]. }
  clear Hloop Hend Heof Hssl.
  break; eauto 10 with ext.
Qed.

Lemma ClearIn_nothing_pending (E : Env) (fuel : nat) (s : TLSWrap E) :
  pending_cleartext_input_ s = [] -> ClearIn fuel s = Ok s.
Proof.
  intros H. unfold ClearIn, Code.ClearIn. rewrite H.
  destruct (negb _), (ssl_ s); reflexivity.
Qed.

(** C1, as the claim words it, fails: on a server whose hello parser is
    active, a delivery of three bytes is committed to [enc_in_], the
    engine's incoming BIO, while the parser is still active. *)
Lemma C1_commit_counterexample :
  let s := Demo.after [OpEnableSessionCallbacks] Demo.server in
  let s' := Demo.after [OpStreamRead 3 [x16; x03; x01]] s in
  IsEnded (hello_parser_ s) = false /\ enc_in_ s = []
  /\ IsEnded (hello_parser_ s') = false /\ enc_in_ s' = [x16; x03; x01].
Proof.
  vm_compute. repeat split; reflexivity.
Qed.

(** C1 (amended): while the hello parser is active and goes on parsing,
    every delivery of the transport is appended to [enc_in_] in arrival
    order and the parser is shown the whole of [enc_in_] each time;
    nothing else happens: the engine, the outgoing BIO, the transport
    and the consumer are not touched, and [EncOut], [ClearOut] and
    [ClearIn] return at once.  The engine sees none of these bytes until
    the parser is ended: [EndParser] then, with no cleartext write
    pending and the stream not at its end, begins with an [SSL_read]
    over what [enc_in_] held before followed by exactly the bytes
    delivered, in their original order. *)
Theorem C1_sniffer_gate (E : Env) (fuel : nat) (bufs : list bytes) :
  forall (s : TLSWrap E),
  IsEnded (hello_parser_ s) = false ->
  ssl_ s <> None ->
  Forall (stays_active E) (shown (enc_in_ s) bufs) ->
  exists s',
    deliver fuel bufs s = Ok s'
    /\ IsEnded (hello_parser_ s') = false
    /\ enc_in_ s' = enc_in_ s ++ concat bufs
    /\ ssl_ s' = ssl_ s
    /\ enc_out_ s' = enc_out_ s
    /\ eof_ s' = eof_ s
    /\ pending_cleartext_input_ s' = pending_cleartext_input_ s
    /\ engine_events s' = engine_events s
    /\ hello_parses s' = rev (shown (enc_in_ s) bufs) ++ hello_parses s
    /\ EncOut s' = Ok s' /\ ClearOut fuel s' = Ok s'
    /\ ClearIn fuel s' = Ok s'
    /\ (forall s'',
          eof_ s = false -> pending_cleartext_input_ s = [] ->
          EndParser fuel s' = Ok s'' ->
          exists later,
            trace_ s'' =
              later ++ EvSSL_read (enc_in_ s ++ concat bufs) :: trace_ s').
Proof.
  induction bufs as [|b rest IH]; intros s Hact Hssl Hv.
  - exists s. simpl. rewrite app_nil_r.
    repeat split; auto using EncOut_active, ClearOut_active, ClearIn_active.
    intros s'' Heof Hpend Hend.
    unfold EndParser, Code.EndParser, Code.parser_End in Hend.
    rewrite Hact in Hend. unfold Code.Cycle, bind in Hend.
    fold (ClearIn fuel (set_hello_parser_ Ended s)) in Hend.
    rewrite ClearIn_nothing_pending in Hend by exact Hpend.
    fold (ClearOut fuel (set_hello_parser_ Ended s)) in Hend.
    destruct (ClearOut fuel (set_hello_parser_ Ended s)) as [s1| |] eqn:Hco;
      try discriminate.
    apply ClearOut_first in Hco; [|reflexivity|exact Heof|exact Hssl].
    eapply extends_EncOut in Hend; [exact Hend|exact Hco].
  - simpl in Hv. inversion Hv as [|d ds Hd Hds]; subst.
    destruct (@OnStreamRead_active E fuel s b Hact Hssl Hd) as
      (s1 & Hrd & Hp1 & Hin1 & Hssl1 & Hout1 & Heof1 & Hpend1 & Hev1 & Hsh1).
    destruct (IH s1) as
      (s' & Hdl & Hact' & Hin' & Hssl' & Hout' & Heof' & Hpend' & Hev'
          & Hsh' & Hrest).
    + rewrite Hp1. exact Hact.
    + rewrite Hssl1. exact Hssl.
    + rewrite Hin1. exact Hds.
    + exists s'. simpl. unfold bind. rewrite Hrd.
      split; [exact Hdl|]. split; [exact Hact'|].
      rewrite Hin1 in Hin', Hsh'. rewrite <- app_assoc in Hin'.
      split; [exact Hin'|].
      split; [congruence|]. split; [congruence|]. split; [congruence|].
      split; [congruence|]. split; [congruence|].
      split; [rewrite Hsh', Hsh1, <- app_assoc; reflexivity|].
      destruct Hrest as (? & ? & ? & Hfin).
      repeat split; auto.
      intros s'' Heof Hpend Hend.
      destruct (Hfin s'') as [later Hl]; try congruence.
      exists later. rewrite Hl, Hin1, <- app_assoc. reflexivity.
Qed.

Lemma C1_sniffer_gate_witness :
  let s := Demo.after [OpEnableSessionCallbacks] Demo.server in
  let s' := Demo.after [OpStreamRead 2 [x16; x03]; OpStreamRead 1 [x01]] s in
  deliver Demo.fuel [[x16; x03]; [x01]] s = Ok s'
  /\ enc_in_ s' = [x16; x03; x01]
  /\ engine_events s' = []
  /\ hello_parses s' = [[x16; x03; x01]; [x16; x03]]
  /\ exists s'' later,
       EndParser Demo.fuel s' = Ok s''
       /\ trace_ s'' = later ++ EvSSL_read [x16; x03; x01] :: trace_ s'.
Proof.
  intros s s'.
  destruct (@C1_sniffer_gate Demo.env Demo.fuel [[x16; x03]; [x01]] s)
    as (t & Hd & _ & Hin & _ & _ & _ & _ & Hev & Hsh & _ & _ & _ & Hend).
  - reflexivity.
  - discriminate.
  - repeat constructor.
  - assert (Ht : t = s').
    { assert (Hc : deliver Demo.fuel [[x16; x03]; [x01]] s = Ok s')
        by (vm_compute; reflexivity).
      rewrite Hc in Hd. injection Hd as <-. reflexivity. }
    subst t.
    split; [exact Hd|]. split; [exact Hin|]. split; [exact Hev|].
    split; [exact Hsh|].
    destruct (EndParser Demo.fuel s') as [s''| |] eqn:He;
      [| vm_compute in He; discriminate ..].
    exists s''.
    destruct (Hend s'' eq_refl eq_refl eq_refl) as [later Hl].
    exists later. split; [reflexivity | exact Hl].
Defined.

(** *** Atomic hand-over of a payload (C10) *)

Lemma InvokeQueued_writes (E : Env) (st : Z) (m : option string)
    (s : TLSWrap E) :
  ssl_writes (snd (InvokeQueued st m s)) = ssl_writes s
  /\ pending_cleartext_input_ (snd (InvokeQueued st m s))
     = pending_cleartext_input_ s
  /\ ssl_ (snd (InvokeQueued st m s)) = ssl_ s.
Proof. unfold InvokeQueued. break; auto. Qed.

Lemma stream_write_writes (E : Env) (k : WriteKind) (bufs : list bytes)
    (s s' : TLSWrap E) (r : StreamWriteResult) :
  stream_write k bufs s = Ok (r, s') ->
  ssl_writes s' = ssl_writes s
  /\ pending_cleartext_input_ s' = pending_cleartext_input_ s
  /\ ssl_ s' = ssl_ s.
Proof. unfold stream_write. intros H. break; auto. Qed.

Lemma EncOut_writes (E : Env) (s s' : TLSWrap E) :
  EncOut s = Ok s' ->
  ssl_writes s' = ssl_writes s
  /\ pending_cleartext_input_ s' = pending_cleartext_input_ s
  /\ ssl_ s' = ssl_ s.
Proof.
  unfold EncOut. intros H. break; auto;
    repeat match goal with
    | H : stream_write _ _ _ = Ok _ |- _ =>
        apply stream_write_writes in H; simpl in H; destruct H as (? & ? & ?)
    | |- context [InvokeQueued ?a ?b ?c] =>
        destruct (InvokeQueued_writes a b c) as (-> & -> & ->)
    end; simpl; auto.
Qed.

(** An engine call without callbacks. *)
Lemma engine_call_quiet (E : Env)
    (nested : list Call -> TLSWrap E -> result (TLSWrap E)) (ev : Event)
    (o : Outcome (SSL E)) (s : TLSWrap E) :
  o_callbacks o = [] ->
  Code.engine_call nested ev o s
  = Ok (log ev (set_enc_out_ (enc_out_ s ++ o_produced o)
                  (set_enc_in_ (skipn (o_consumed o) (enc_in_ s))
                     (set_ssl_ (Some (o_ssl o)) s)))).
Proof. unfold Code.engine_call. intros ->. reflexivity. Qed.

Lemma GetSSLError_class (E : Env) (s : TLSWrap E) (o : Outcome (SSL E))
    (arg : option js_error) :
  GetSSLError s o = Ok arg ->
  match arg with
  | Some e =>
      fatal (o_err o) = true /\ ssl_ s <> None
      /\ e = match o_err o with
             | SSL_ERROR_ZERO_RETURN => zero_return_string
             | _ => ssl_exception (o_msg o)
             end
  | None => would_block (o_err o) = true \/ ssl_ s = None
  end.
Proof.
  unfold GetSSLError. intros H.
  destruct (ssl_ s); [|injection H as <-; auto].
  destruct (o_err o); break; repeat split; auto; discriminate.
Qed.

Lemma to_int_small (n : Z) : 0 <= n <= INT_MAX -> to_int n = n.
Proof.
  unfold to_int, INT_MAX. intros H.
  rewrite Z.mod_small by lia. lia.
Qed.




(** *** States a wrap can reach: certificate, session and EOF flags *)

Create HintDb inv1 discriminated.

Ltac inv1_simple :=
  unfold consistent, cert_consistent, session_consistent, eof_once,
    eof_count, is_server, is_waiting_cert_cb, log, SetImmediate in *;
  simpl in *; intuition (try congruence; try lia).

Lemma consistent_frame (E : Env) (s s' : TLSWrap E) :
  same_flags s s' -> consistent s -> consistent s'.
Proof.
  unfold same_flags. intros (Hk & Hc & Hr & Ha & He & Ht).
  unfold consistent, cert_consistent, session_consistent, eof_once,
    eof_count, is_server, is_waiting_cert_cb.
  rewrite Hk, Hc, Hr, Ha, He, Ht. tauto.
Qed.

#[export] Hint Extern 2 (consistent (_ _ _)) =>
  frame_with consistent_frame : inv1.

Section Consistent.

Variable E : Env.
Variable fuel : nat.
Variable nested : list Call -> TLSWrap E -> result (TLSWrap E).
Implicit Type s : TLSWrap E.

Hypothesis nested_consistent :
  forall cs s s', nested cs s = Ok s' -> consistent s -> consistent s'.

Hint Resolve nested_consistent : inv1.

Lemma consistent_new kind ssl stream :
  consistent (TLSWrap_new E kind ssl stream).
Proof. inv1_simple. Qed.

Lemma consistent_log e s :
  is_eof e = false -> consistent s -> consistent (log e s).
Proof. intros He. inv1_simple; rewrite He in *; simpl in *; auto. Qed.

Lemma is_eof_data (n : nat) (d : bytes) :
  is_eof (EvEmitRead (Z.of_nat n) d) = false.
Proof. simpl. apply Z.eqb_neq. unfold UV_EOF. lia. Qed.

Lemma consistent_emit_eof d s :
  eof_ s = false ->
  consistent s -> consistent (log (EvEmitRead UV_EOF d) (set_eof_ true s)).
Proof. intros He. inv1_simple. Qed.

Lemma consistent_EnableCertCb s : consistent s -> consistent (EnableCertCb s).
Proof. unfold EnableCertCb. inv1_simple. Qed.

Lemma consistent_set_awaiting_false s :
  consistent s -> consistent (set_awaiting_new_session_ false s).
Proof. inv1_simple. Qed.

Lemma consistent_InvokeQueued st m s :
  consistent s -> consistent (snd (InvokeQueued st m s)).
Proof. unfold InvokeQueued. intros H. break; auto with inv1. Qed.

Lemma consistent_DestroySSL s : consistent s -> consistent (DestroySSL s).
Proof.
  unfold DestroySSL, SSLWrap_DestroySSL. intros H.
  break; repeat frame_with consistent_frame;
    apply consistent_InvokeQueued; auto with inv1.
Qed.

Hint Resolve consistent_log consistent_emit_eof consistent_EnableCertCb
  consistent_set_awaiting_false consistent_InvokeQueued
  consistent_DestroySSL is_eof_data : inv1.
Hint Extern 1 (is_eof _ = false) => reflexivity : inv1.

Lemma consistent_set_cert_running s :
  is_server s = true -> is_waiting_cert_cb s = true ->
  consistent s -> consistent (set_cert_cb_running_ true s).
Proof. inv1_simple. Qed.

Lemma consistent_set_awaiting_true s :
  is_server s = true ->
  consistent s -> consistent (set_awaiting_new_session_ true s).
Proof. inv1_simple. Qed.

Lemma consistent_fire_cb s :
  consistent s -> consistent (set_cert_cb_ None (set_cert_cb_running_ false s)).
Proof. inv1_simple. Qed.

Hint Resolve consistent_set_cert_running consistent_set_awaiting_true
  consistent_fire_cb : inv1.

Lemma consistent_NewSessionCallback size js s r s' :
  Code.NewSessionCallback nested size js s = Ok (r, s') ->
  consistent s -> consistent s'.
Proof.
  unfold Code.NewSessionCallback. intros H H0. break; eauto 8 with inv1.
Qed.

Lemma consistent_CertCbDone_body ctx s r s' :
  Code.CertCbDone_body nested ctx s = Ok (r, s') ->
  consistent s -> consistent s'.
Proof.
  unfold Code.CertCbDone_body. intros H H0. break; eauto 8 with inv1.
Qed.

Lemma consistent_SSLCertCallback js s r s' :
  Code.SSLCertCallback nested js s = Ok (r, s') ->
  consistent s -> consistent s'.
Proof.
  unfold Code.SSLCertCallback. intros H H0.
  destruct (negb (is_server s)) eqn:Hsv; [break; auto|].
  destruct (negb (is_waiting_cert_cb s)) eqn:Hw; [break; auto|].
  apply negb_false_iff in Hsv, Hw.
  break; eauto 8 with inv1.
Qed.

Lemma consistent_SSLInfoCallback w p a b s s' :
  Code.SSLInfoCallback nested w p a b s = Ok s' ->
  consistent s -> consistent s'.
Proof.
  unfold Code.SSLInfoCallback. intros H H0. break; eauto 8 with inv1.
Qed.

Hint Resolve consistent_NewSessionCallback consistent_CertCbDone_body
  consistent_SSLCertCallback consistent_SSLInfoCallback : inv1.

Lemma consistent_run_callback cb s s' :
  Code.run_callback nested cb s = Ok s' -> consistent s -> consistent s'.
Proof.
  unfold Code.run_callback. intros H H0. break; eauto 8 with inv1.
Qed.

Lemma consistent_run_callbacks cbs :
  forall s s', Code.run_callbacks nested cbs s = Ok s' ->
  consistent s -> consistent s'.
Proof.
  induction cbs as [|cb cbs IH]; intros s s' H H0; simpl in H.
  - injection H as <-; auto.
  - unfold bind in H.
    destruct (Code.run_callback nested cb s) eqn:Hc; try discriminate.
    eauto using consistent_run_callback.
Qed.

Lemma consistent_engine_call ev o s s' :
  Code.engine_call nested ev o s = Ok s' ->
  is_eof ev = false -> consistent s -> consistent s'.
Proof.
  intros H He H0. unfold Code.engine_call in H.
  eapply consistent_run_callbacks; [exact H|].
  apply consistent_log; auto with inv1.
Qed.

Hint Resolve consistent_engine_call : inv1.

Lemma consistent_stream_write k bufs s r s' :
  stream_write k bufs s = Ok (r, s') -> consistent s -> consistent s'.
Proof. unfold stream_write. intros H H0. break; auto 8 with inv1. Qed.
Hint Resolve consistent_stream_write : inv1.

Lemma consistent_EncOut s s' :
  EncOut s = Ok s' -> consistent s -> consistent s'.
Proof. unfold EncOut. intros H H0. break; eauto 8 with inv1. Qed.
Hint Resolve consistent_EncOut : inv1.

Lemma consistent_ClearIn s s' :
  Code.ClearIn nested s = Ok s' -> consistent s -> consistent s'.
Proof. unfold Code.ClearIn. intros H H0. break; eauto 8 with inv1. Qed.
Hint Resolve consistent_ClearIn : inv1.

Lemma consistent_EmitRead n d s s' :
  Code.EmitRead nested n d s = Ok s' ->
  is_eof (EvEmitRead n d) = false -> consistent s -> consistent s'.
Proof. unfold Code.EmitRead. intros H He H0. eauto 8 with inv1. Qed.

Lemma consistent_EmitRead_eof s s' :
  Code.EmitRead nested UV_EOF [] (set_eof_ true s) = Ok s' ->
  eof_ s = false ->
  consistent s -> consistent s'.
Proof. unfold Code.EmitRead. intros H He H0. eauto 8 with inv1. Qed.

Hint Resolve consistent_EmitRead consistent_EmitRead_eof : inv1.

Lemma consistent_emit_chunks n :
  forall data s d s',
  Code.emit_chunks nested n data s = Ok (d, s') ->
  consistent s -> consistent s'.
Proof.
  induction n as [|n IH]; intros data s d s' H H0; destruct data; simpl in H;
    try discriminate; try (injection H as <- <-; assumption).
  unfold bind in H.
  destruct (Code.EmitRead _ _ _ _) as [s1| |] eqn:He; try discriminate.
  apply consistent_EmitRead in He; [|apply is_eof_data|exact H0].
  destruct (is_null _); [injection H as <- <-; assumption | eauto].
Qed.
Hint Resolve consistent_emit_chunks : inv1.

Lemma consistent_read_loop n :
  forall s r s',
  Code.read_loop nested n s = Ok (r, s') -> consistent s -> consistent s'.
Proof.
  induction n as [|n IH]; intros s r s' H H0; simpl in H; try discriminate.
  destruct (ssl_ s) eqn:Hs; [|discriminate].
  unfold bind in H.
  destruct (Code.engine_call _ _ _ _) as [s1| |] eqn:Hc; try discriminate.
  apply consistent_engine_call in Hc; [|reflexivity|exact H0].
  destruct (o_ret _ <=? 0); [injection H as <- <-; assumption|].
  destruct (Code.emit_chunks _ _ _ _) as [[d s2]| |] eqn:He; try discriminate.
  apply consistent_emit_chunks in He; [|exact Hc].
  destruct d; [injection H as <- <-; assumption | eauto].
Qed.
Hint Resolve consistent_read_loop : inv1.

Lemma consistent_ClearOut s s' :
  Code.ClearOut fuel nested s = Ok s' -> consistent s -> consistent s'.
Proof.
  unfold Code.ClearOut. intros H H0. unfold bind in H.
  destruct (negb (IsEnded (hello_parser_ s))); [injection H as <-; auto|].
  destruct (eof_ s); [injection H as <-; auto|].
  destruct (is_null (ssl_ s)); [injection H as <-; auto|].
  destruct (Code.read_loop nested fuel s) as [[last s1]| |] eqn:Hr;
    try discriminate.
  apply consistent_read_loop in Hr; auto.
  destruct last as [o|]; [|injection H as <-; auto].
  destruct (ssl_ s1) as [ssl|]; [|discriminate].
  destruct (eof_ s1) eqn:He1; simpl in H; break; eauto 8 with inv1.
Qed.
Hint Resolve consistent_ClearOut : inv1.

Lemma consistent_Cycle s s' :
  Code.Cycle fuel nested s = Ok s' -> consistent s -> consistent s'.
Proof. unfold Code.Cycle. intros H H0. break; eauto 8 with inv1. Qed.
Hint Resolve consistent_Cycle : inv1.

Lemma consistent_OnStreamAfterWrite st s s' :
  Code.OnStreamAfterWrite nested st s = Ok s' ->
  consistent s -> consistent s'.
Proof.
  unfold Code.OnStreamAfterWrite. intros H H0. break; eauto 8 with inv1.
Qed.
Hint Resolve consistent_OnStreamAfterWrite : inv1.

Lemma consistent_DoWrite w bufs sh s r s' :
  Code.DoWrite fuel nested w bufs sh s = Ok (r, s') ->
  consistent s -> consistent s'.
Proof. unfold Code.DoWrite. intros H H0. break; eauto 10 with inv1. Qed.
Hint Resolve consistent_DoWrite : inv1.

Lemma consistent_parser_End s s' :
  Code.parser_End fuel nested s = Ok s' -> consistent s -> consistent s'.
Proof. unfold Code.parser_End. intros H H0. break; eauto 8 with inv1. Qed.
Hint Resolve consistent_parser_End : inv1.

Lemma consistent_parser_Parse d s s' :
  Code.parser_Parse fuel nested d s = Ok s' -> consistent s -> consistent s'.
Proof. unfold Code.parser_Parse. intros H H0. break; eauto 8 with inv1. Qed.
Hint Resolve consistent_parser_Parse : inv1.

Lemma consistent_OnStreamRead nread buf s s' :
  Code.OnStreamRead fuel nested nread buf s = Ok s' ->
  consistent s -> consistent s'.
Proof.
  unfold Code.OnStreamRead. intros H H0. unfold bind in H.
  destruct (nread <? 0).
  - destruct (Code.ClearOut fuel nested s) as [s1| |] eqn:Hc;
      try discriminate.
    apply consistent_ClearOut in Hc; auto.
    destruct (nread =? UV_EOF) eqn:Hn; simpl in H.
    + apply Z.eqb_eq in Hn. subst nread.
      destruct (eof_ s1) eqn:He; simpl in H;
        [injection H as <-; auto | eauto with inv1].
    + eapply consistent_EmitRead; [exact H|exact Hn|exact Hc].
  - break; eauto 8 with inv1.
Qed.
Hint Resolve consistent_OnStreamRead : inv1.

Lemma consistent_Start s s' :
  Code.Start fuel nested s = Ok s' -> consistent s -> consistent s'.
Proof. unfold Code.Start. intros H H0. break; eauto 8 with inv1. Qed.

Lemma consistent_DoShutdown s r s' :
  Code.DoShutdown nested s = Ok (r, s') -> consistent s -> consistent s'.
Proof. unfold Code.DoShutdown. intros H H0. break; eauto 10 with inv1. Qed.

Lemma consistent_EnableSessionCallbacks s s' :
  EnableSessionCallbacks s = Ok s' -> consistent s -> consistent s'.
Proof.
  unfold EnableSessionCallbacks, parser_Start. intros H H0.
  break; eauto 8 with inv1.
Qed.

Lemma consistent_CertCbDone ctx s s' :
  Code.CertCbDone fuel nested ctx s = Ok s' -> consistent s -> consistent s'.
Proof. unfold Code.CertCbDone. intros H H0. break; eauto 8 with inv1. Qed.

Lemma consistent_NewSessionDone s s' :
  Code.NewSessionDone fuel nested s = Ok s' -> consistent s -> consistent s'.
Proof.
  unfold Code.NewSessionDone, Code.NewSessionDoneCb. intros H H0.
  eauto with inv1.
Qed.

Lemma consistent_run_immediate i s s' :
  Code.run_immediate nested i s = Ok s' -> consistent s -> consistent s'.
Proof. unfold Code.run_immediate. intros H H0. break; eauto 8 with inv1. Qed.

Hint Resolve consistent_Start consistent_DoShutdown
  consistent_EnableSessionCallbacks consistent_CertCbDone
  consistent_NewSessionDone consistent_run_immediate : inv1.

Lemma consistent_step_in op s s' :
  Code.step fuel nested op s = Ok s' -> consistent s -> consistent s'.
Proof.
  unfold Code.step, Code.EndParser. intros H H0.
  destruct op; break; eauto 8 with inv1.
Qed.

Lemma consistent_run_in ops :
  forall s s', Code.run fuel nested ops s = Ok s' ->
  consistent s -> consistent s'.
Proof.
  induction ops as [|op ops IH]; intros s s' H H0; simpl in H.
  - injection H as <-; auto.
  - unfold bind in H.
    destruct (Code.step fuel nested op s) eqn:Hs; try discriminate.
    eauto using consistent_step_in.
Qed.

End Consistent.

Lemma consistent_js (E : Env) (fuel : nat) :
  forall cs (s s' : TLSWrap E),
  js E fuel cs s = Ok s' -> consistent s -> consistent s'.
Proof.
  induction fuel as [|n IH]; intros cs s s' H H0; destruct cs;
    try (rewrite js_nil in H; injection H as <-; assumption);
    try discriminate.
  eapply consistent_run_in; [exact IH | exact H | exact H0].
Qed.

Lemma consistent_step (E : Env) (fuel : nat) (op : Op) (s s' : TLSWrap E) :
  step fuel op s = Ok s' -> consistent s -> consistent s'.
Proof. apply consistent_step_in, consistent_js. Qed.

Lemma consistent_run (E : Env) (fuel : nat) (ops : list Op)
    (s s' : TLSWrap E) :
  run fuel ops s = Ok s' -> consistent s -> consistent s'.
Proof. apply consistent_run_in, consistent_js. Qed.

(** *** After the end of the stream *)

Lemma after_eof_frame (E : Env) (s s' : TLSWrap E) (r : list Event) :
  same_reads s s' -> after_eof r s -> after_eof r s'.
Proof.
  unfold same_reads, after_eof, reads. intros (He & Ht). rewrite He, Ht. tauto.
Qed.

Create HintDb eof discriminated.

#[export] Hint Extern 2 (after_eof _ (_ _ _)) =>
  frame_with after_eof_frame : eof.

Section AfterEof.

Variable E : Env.
Variable fuel : nat.
Variable nested : list Call -> TLSWrap E -> result (TLSWrap E).
Variable r : list Event.
Implicit Type s : TLSWrap E.

Hypothesis nested_after_eof :
  forall cs s s', nested cs s = Ok s' -> after_eof r s -> after_eof r s'.

Hint Resolve nested_after_eof : eof.

Lemma after_eof_log e s :
  is_read e = false -> after_eof r s -> after_eof r (log e s).
Proof.
  unfold after_eof, reads, log. simpl. intros -> H. exact H.
Qed.

Lemma after_eof_InvokeQueued st m s :
  after_eof r s -> after_eof r (snd (InvokeQueued st m s)).
Proof. unfold InvokeQueued. intros H. break; auto with eof. Qed.

Lemma after_eof_DestroySSL s : after_eof r s -> after_eof r (DestroySSL s).
Proof.
  unfold DestroySSL, SSLWrap_DestroySSL. intros H.
  break; repeat frame_with after_eof_frame;
    apply after_eof_InvokeQueued; auto with eof.
Qed.

Hint Resolve after_eof_log after_eof_InvokeQueued after_eof_DestroySSL : eof.
Hint Extern 1 (is_read _ = false) => reflexivity : eof.

Lemma after_eof_NewSessionCallback size js s res s' :
  Code.NewSessionCallback nested size js s = Ok (res, s') ->
  after_eof r s -> after_eof r s'.
Proof.
  unfold Code.NewSessionCallback. intros H H0. break; eauto 8 with eof.
Qed.

Lemma after_eof_CertCbDone_body ctx s res s' :
  Code.CertCbDone_body nested ctx s = Ok (res, s') ->
  after_eof r s -> after_eof r s'.
Proof.
  unfold Code.CertCbDone_body. intros H H0. break; eauto 8 with eof.
Qed.

Lemma after_eof_SSLCertCallback js s res s' :
  Code.SSLCertCallback nested js s = Ok (res, s') ->
  after_eof r s -> after_eof r s'.
Proof.
  unfold Code.SSLCertCallback. intros H H0. break; eauto 8 with eof.
Qed.

Lemma after_eof_SSLInfoCallback w p a b s s' :
  Code.SSLInfoCallback nested w p a b s = Ok s' ->
  after_eof r s -> after_eof r s'.
Proof.
  unfold Code.SSLInfoCallback. intros H H0. break; eauto 8 with eof.
Qed.

Hint Resolve after_eof_NewSessionCallback after_eof_CertCbDone_body
  after_eof_SSLCertCallback after_eof_SSLInfoCallback : eof.

Lemma after_eof_run_callback cb s s' :
  Code.run_callback nested cb s = Ok s' -> after_eof r s -> after_eof r s'.
Proof.
  unfold Code.run_callback. intros H H0. break; eauto 8 with eof.
Qed.

Lemma after_eof_run_callbacks cbs :
  forall s s', Code.run_callbacks nested cbs s = Ok s' ->
  after_eof r s -> after_eof r s'.
Proof.
  induction cbs as [|cb cbs IH]; intros s s' H H0; simpl in H.
  - injection H as <-; auto.
  - unfold bind in H.
    destruct (Code.run_callback nested cb s) eqn:Hc; try discriminate.
    eauto using after_eof_run_callback.
Qed.

Lemma after_eof_engine_call ev o s s' :
  Code.engine_call nested ev o s = Ok s' ->
  is_read ev = false -> after_eof r s -> after_eof r s'.
Proof.
  intros H He H0. unfold Code.engine_call in H.
  eapply after_eof_run_callbacks; [exact H|].
  apply after_eof_log; auto with eof.
Qed.

Hint Resolve after_eof_engine_call : eof.

Lemma after_eof_stream_write k bufs s res s' :
  stream_write k bufs s = Ok (res, s') -> after_eof r s -> after_eof r s'.
Proof. unfold stream_write. intros H H0. break; auto 8 with eof. Qed.
Hint Resolve after_eof_stream_write : eof.

Lemma after_eof_EncOut s s' :
  EncOut s = Ok s' -> after_eof r s -> after_eof r s'.
Proof. unfold EncOut. intros H H0. break; eauto 8 with eof. Qed.
Hint Resolve after_eof_EncOut : eof.

Lemma after_eof_ClearIn s s' :
  Code.ClearIn nested s = Ok s' -> after_eof r s -> after_eof r s'.
Proof. unfold Code.ClearIn. intros H H0. break; eauto 8 with eof. Qed.
Hint Resolve after_eof_ClearIn : eof.

(** No reads after EOF. *)
Lemma ClearOut_after_eof s :
  eof_ s = true -> Code.ClearOut fuel nested s = Ok s.
Proof.
  intros H. unfold Code.ClearOut. rewrite H. destruct (negb _); reflexivity.
Qed.

Lemma after_eof_ClearOut s s' :
  Code.ClearOut fuel nested s = Ok s' -> after_eof r s -> after_eof r s'.
Proof.
  intros H H0. rewrite ClearOut_after_eof in H by apply H0.
  injection H as <-. exact H0.
Qed.
Hint Resolve after_eof_ClearOut : eof.

Lemma after_eof_Cycle s s' :
  Code.Cycle fuel nested s = Ok s' -> after_eof r s -> after_eof r s'.
Proof. unfold Code.Cycle. intros H H0. break; eauto 8 with eof. Qed.
Hint Resolve after_eof_Cycle : eof.

Lemma after_eof_OnStreamAfterWrite st s s' :
  Code.OnStreamAfterWrite nested st s = Ok s' ->
  after_eof r s -> after_eof r s'.
Proof.
  unfold Code.OnStreamAfterWrite. intros H H0. break; eauto 8 with eof.
Qed.
Hint Resolve after_eof_OnStreamAfterWrite : eof.

Lemma after_eof_DoWrite w bufs sh s res s' :
  Code.DoWrite fuel nested w bufs sh s = Ok (res, s') ->
  after_eof r s -> after_eof r s'.
Proof. unfold Code.DoWrite. intros H H0. break; eauto 10 with eof. Qed.
Hint Resolve after_eof_DoWrite : eof.

Lemma after_eof_parser_End s s' :
  Code.parser_End fuel nested s = Ok s' -> after_eof r s -> after_eof r s'.
Proof. unfold Code.parser_End. intros H H0. break; eauto 8 with eof. Qed.
Hint Resolve after_eof_parser_End : eof.

Lemma after_eof_parser_Parse d s s' :
  Code.parser_Parse fuel nested d s = Ok s' ->
  after_eof r s -> after_eof r s'.
Proof. unfold Code.parser_Parse. intros H H0. break; eauto 8 with eof. Qed.
Hint Resolve after_eof_parser_Parse : eof.

Lemma after_eof_OnStreamRead nread buf s s' :
  Code.OnStreamRead fuel nested nread buf s = Ok s' ->
  after_eof r s -> after_eof r s'.
Proof.
  unfold Code.OnStreamRead, Code.EmitRead. intros H H0.
  destruct (nread <? 0) eqn:Hneg.
  - rewrite ClearOut_after_eof in H by apply H0. simpl in H.
    destruct H0 as [He Hr]. rewrite He, andb_true_r in H.
    destruct (nread =? UV_EOF) eqn:Hn; [injection H as <-; split; assumption|].
    eapply nested_after_eof; [exact H|].
    apply after_eof_log; [|split; assumption].
    simpl. rewrite Hn, orb_false_r. apply Z.leb_gt, Z.ltb_lt, Hneg.
  - break; eauto 8 with eof.
Qed.
Hint Resolve after_eof_OnStreamRead : eof.

Lemma after_eof_Start s s' :
  Code.Start fuel nested s = Ok s' -> after_eof r s -> after_eof r s'.
Proof. unfold Code.Start. intros H H0. break; eauto 8 with eof. Qed.

Lemma after_eof_DoShutdown s res s' :
  Code.DoShutdown nested s = Ok (res, s') -> after_eof r s -> after_eof r s'.
Proof. unfold Code.DoShutdown. intros H H0. break; eauto 10 with eof. Qed.

Lemma after_eof_EnableSessionCallbacks s s' :
  EnableSessionCallbacks s = Ok s' -> after_eof r s -> after_eof r s'.
Proof.
  unfold EnableSessionCallbacks, parser_Start. intros H H0.
  break; eauto 8 with eof.
Qed.

Lemma after_eof_CertCbDone ctx s s' :
  Code.CertCbDone fuel nested ctx s = Ok s' ->
  after_eof r s -> after_eof r s'.
Proof. unfold Code.CertCbDone. intros H H0. break; eauto 8 with eof. Qed.

Lemma after_eof_NewSessionDone s s' :
  Code.NewSessionDone fuel nested s = Ok s' ->
  after_eof r s -> after_eof r s'.
Proof.
  unfold Code.NewSessionDone, Code.NewSessionDoneCb. intros H H0.
  eapply after_eof_Cycle; [exact H|]. auto with eof.
Qed.

Lemma after_eof_run_immediate i s s' :
  Code.run_immediate nested i s = Ok s' -> after_eof r s -> after_eof r s'.
Proof. unfold Code.run_immediate. intros H H0. break; eauto 8 with eof. Qed.

Hint Resolve after_eof_Start after_eof_DoShutdown
  after_eof_EnableSessionCallbacks after_eof_CertCbDone
  after_eof_NewSessionDone after_eof_run_immediate : eof.

Lemma after_eof_step_in op s s' :
  Code.step fuel nested op s = Ok s' -> after_eof r s -> after_eof r s'.
Proof.
  unfold Code.step, Code.EndParser, EnableCertCb. intros H H0.
  destruct op; break; eauto 8 with eof.
Qed.

Lemma after_eof_run_in ops :
  forall s s', Code.run fuel nested ops s = Ok s' ->
  after_eof r s -> after_eof r s'.
Proof.
  induction ops as [|op ops IH]; intros s s' H H0; simpl in H.
  - injection H as <-; auto.
  - unfold bind in H.
    destruct (Code.step fuel nested op s) eqn:Hs; try discriminate.
    eauto using after_eof_step_in.
Qed.

End AfterEof.

Lemma after_eof_js (E : Env) (r : list Event) (fuel : nat) :
  forall cs (s s' : TLSWrap E),
  js E fuel cs s = Ok s' -> after_eof r s -> after_eof r s'.
Proof.
  induction fuel as [|n IH]; intros cs s s' H H0; destruct cs;
    try (rewrite js_nil in H; injection H as <-; assumption);
    try discriminate.
  eapply after_eof_run_in; [exact IH | exact H | exact H0].
Qed.

Lemma after_eof_step (E : Env) (fuel : nat) (r : list Event) (op : Op)
    (s s' : TLSWrap E) :
  step fuel op s = Ok s' -> after_eof r s -> after_eof r s'.
Proof. apply after_eof_step_in, after_eof_js. Qed.

(** *** Deliveries when no handler calls back *)

Lemma delivered_frame (E : Env) (s s' : TLSWrap E) (b : bool)
    (r : list Event) :
  same_reads s s' -> delivered b r s -> delivered b r s'.
Proof.
  unfold same_reads, delivered, reads. intros (He & Ht). rewrite He, Ht.
  tauto.
Qed.

Lemma unended_delivered (E : Env) (s s' : TLSWrap E) :
  delivered (eof_ s) (reads s) s' -> unended s -> unended s'.
Proof. unfold delivered, unended. intros [-> ->]. tauto. Qed.

Lemma orderly_delivered (E : Env) (s s' : TLSWrap E) :
  delivered (eof_ s) (reads s) s' -> orderly s -> orderly s'.
Proof. unfold delivered, orderly, eof_last. intros [-> ->]. tauto. Qed.

Lemma orderly_frame (E : Env) (s s' : TLSWrap E) :
  same_reads s s' -> orderly s -> orderly s'.
Proof.
  intros H. apply orderly_delivered.
  apply (delivered_frame H). split; reflexivity.
Qed.

Lemma unended_orderly (E : Env) (s : TLSWrap E) : unended s -> orderly s.
Proof.
  unfold unended, orderly, eof_last. intros [He Hr]. split; [auto|].
  destruct (reads s); simpl; [constructor | inversion Hr; assumption].
Qed.

Lemma orderly_unended (E : Env) (s : TLSWrap E) :
  eof_ s = false -> orderly s -> unended s.
Proof. unfold unended, orderly. intros He [Hr _]. auto. Qed.

Lemma unended_emit_data (E : Env) (n : nat) (d : bytes) (s : TLSWrap E) :
  unended s -> unended (log (EvEmitRead (Z.of_nat n) d) s).
Proof.
  unfold unended, reads. simpl. intros [He Hr]. split; [exact He|].
  assert (Hn : (Z.of_nat n =? UV_EOF) = false)
    by (apply Z.eqb_neq; unfold UV_EOF; lia).
  destruct ((0 <=? Z.of_nat n) || (Z.of_nat n =? UV_EOF)); [|exact Hr].
  constructor; [exact Hn | exact Hr].
Qed.

Lemma orderly_emit_eof (E : Env) (d : bytes) (s : TLSWrap E) :
  unended s -> orderly (log (EvEmitRead UV_EOF d) (set_eof_ true s)).
Proof.
  unfold unended, orderly, eof_last, reads. simpl. intros [He Hr].
  split; [discriminate | exact Hr].
Qed.

Create HintDb sil discriminated.

#[export] Hint Extern 2 (delivered _ _ (_ _ _)) =>
  frame_with delivered_frame : sil.
#[export] Hint Extern 2 (orderly (_ _ _)) =>
  frame_with orderly_frame : sil.
#[export] Hint Extern 1 (is_read _ = false) => reflexivity : sil.
#[export] Hint Extern 1 (@eq (list Call) _ _) => reflexivity : sil.

Section Silent.

Variable E : Env.
Variable fuel : nat.
Variable nested : list Call -> TLSWrap E -> result (TLSWrap E).
Implicit Type s : TLSWrap E.

Hypothesis Hsilent : silent E.
Hypothesis nested_nil : forall s, nested [] s = Ok s.

Lemma nested_silent cs s s' : nested cs s = Ok s' -> cs = [] -> s' = s.
Proof. intros H ->. rewrite nested_nil in H. congruence. Qed.

Lemma quiet_onread n d : onread E n d = [].
Proof. apply (silent_onread Hsilent). Qed.

Lemma quiet_onerror e : onerror E e = [].
Proof. apply (silent_onerror Hsilent). Qed.

Lemma quiet_onclienthello d : onclienthello E d = [].
Proof. apply (silent_onclienthello Hsilent). Qed.

Lemma quiet_read ssl i : quiet_outcome (SSL_read E ssl i).
Proof. apply (silent_read Hsilent). Qed.

Lemma quiet_write ssl d n i : quiet_outcome (SSL_write E ssl d n i).
Proof. apply (silent_write Hsilent). Qed.

Lemma quiet_shutdown ssl i : quiet_outcome (SSL_shutdown E ssl i).
Proof. apply (silent_shutdown Hsilent). Qed.

Hint Resolve quiet_onread quiet_onerror quiet_onclienthello quiet_read
  quiet_write quiet_shutdown : sil.

Section Delivered.

Variable b : bool.
Variable r : list Event.

Lemma delivered_nested cs s s' :
  nested cs s = Ok s' -> cs = [] -> delivered b r s -> delivered b r s'.
Proof. intros H Hc. rewrite (nested_silent H Hc). auto. Qed.
Hint Resolve delivered_nested : sil.

Lemma delivered_log e s :
  is_read e = false -> delivered b r s -> delivered b r (log e s).
Proof. unfold delivered, reads, log. simpl. intros -> H. exact H. Qed.

Lemma delivered_InvokeQueued st m s :
  delivered b r s -> delivered b r (snd (InvokeQueued st m s)).
Proof. unfold InvokeQueued. intros H. break; auto using delivered_log with sil. Qed.

Lemma delivered_DestroySSL s : delivered b r s -> delivered b r (DestroySSL s).
Proof.
  unfold DestroySSL, SSLWrap_DestroySSL. intros H.
  break; repeat frame_with delivered_frame;
    apply delivered_InvokeQueued; auto with sil.
Qed.

Hint Resolve delivered_log delivered_InvokeQueued delivered_DestroySSL : sil.

Lemma delivered_stream_write k bufs s res s' :
  stream_write k bufs s = Ok (res, s') -> delivered b r s -> delivered b r s'.
Proof. unfold stream_write. intros H H0. break; auto 8 with sil. Qed.
Hint Resolve delivered_stream_write : sil.

Lemma delivered_EncOut s s' :
  EncOut s = Ok s' -> delivered b r s -> delivered b r s'.
Proof. unfold EncOut. intros H H0. break; eauto 8 with sil. Qed.
Hint Resolve delivered_EncOut : sil.

Lemma delivered_NewSessionCallback size js s res s' :
  Code.NewSessionCallback nested size js s = Ok (res, s') ->
  js = [] -> delivered b r s -> delivered b r s'.
Proof.
  unfold Code.NewSessionCallback. intros H Hj H0. break; eauto 8 with sil.
Qed.

Lemma delivered_CertCbDone_body ctx s res s' :
  Code.CertCbDone_body nested ctx s = Ok (res, s') ->
  delivered b r s -> delivered b r s'.
Proof.
  unfold Code.CertCbDone_body. intros H H0. break; eauto 8 with sil.
Qed.

Lemma delivered_SSLCertCallback js s res s' :
  Code.SSLCertCallback nested js s = Ok (res, s') ->
  js = [] -> delivered b r s -> delivered b r s'.
Proof.
  unfold Code.SSLCertCallback. intros H Hj H0. break; eauto 8 with sil.
Qed.

Lemma delivered_SSLInfoCallback w p js1 js2 s s' :
  Code.SSLInfoCallback nested w p js1 js2 s = Ok s' ->
  js1 = [] -> js2 = [] -> delivered b r s -> delivered b r s'.
Proof.
  unfold Code.SSLInfoCallback. intros H H1 H2 H0. break; eauto 8 with sil.
Qed.

Lemma delivered_run_callback cb s s' :
  Code.run_callback nested cb s = Ok s' ->
  reaction cb = [] -> delivered b r s -> delivered b r s'.
Proof.
  unfold Code.run_callback. intros H Hr H0. destruct cb; simpl in Hr.
  - apply app_eq_nil in Hr. destruct Hr.
    eapply delivered_SSLInfoCallback; eauto.
  - unfold bind in H.
    destruct (Code.NewSessionCallback _ _ _ _) as [[z t]| |] eqn:Hc;
      try discriminate.
    injection H as <-. eapply delivered_NewSessionCallback; eauto.
  - unfold bind in H.
    destruct (Code.SSLCertCallback _ _ _) as [[z t]| |] eqn:Hc;
      try discriminate.
    injection H as <-. eapply delivered_SSLCertCallback; eauto.
Qed.

Lemma delivered_run_callbacks cbs :
  forall s s', Code.run_callbacks nested cbs s = Ok s' ->
  (forall cb, In cb cbs -> reaction cb = []) ->
  delivered b r s -> delivered b r s'.
Proof.
  induction cbs as [|cb cbs IH]; intros s s' H Hq H0; simpl in H.
  - injection H as <-; auto.
  - unfold bind in H.
    destruct (Code.run_callback nested cb s) eqn:Hc; try discriminate.
    eapply IH; [exact H | intros; apply Hq; right; assumption |].
    eapply delivered_run_callback; [exact Hc | apply Hq; left; reflexivity
                                   | exact H0].
Qed.

Lemma delivered_engine_call ev o s s' :
  Code.engine_call nested ev o s = Ok s' ->
  quiet_outcome o -> is_read ev = false ->
  delivered b r s -> delivered b r s'.
Proof.
  intros H Hq He H0. unfold Code.engine_call in H.
  eapply delivered_run_callbacks; [exact H | exact Hq |].
  apply delivered_log; auto with sil.
Qed.
Hint Resolve delivered_engine_call : sil.

Lemma delivered_ClearIn s s' :
  Code.ClearIn nested s = Ok s' -> delivered b r s -> delivered b r s'.
Proof. unfold Code.ClearIn. intros H H0. break; eauto 8 with sil. Qed.

Lemma delivered_OnStreamAfterWrite st s s' :
  Code.OnStreamAfterWrite nested st s = Ok s' ->
  delivered b r s -> delivered b r s'.
Proof.
  unfold Code.OnStreamAfterWrite. intros H H0.
  break; eauto 8 using delivered_ClearIn with sil.
Qed.

Lemma delivered_DoShutdown s res s' :
  Code.DoShutdown nested s = Ok (res, s') ->
  delivered b r s -> delivered b r s'.
Proof. unfold Code.DoShutdown. intros H H0. break; eauto 10 with sil. Qed.

Lemma delivered_EnableSessionCallbacks s s' :
  EnableSessionCallbacks s = Ok s' -> delivered b r s -> delivered b r s'.
Proof.
  unfold EnableSessionCallbacks, parser_Start. intros H H0.
  break; eauto 8 with sil.
Qed.

End Delivered.

(** What does not reach [ClearOut] keeps the deliveries as they are. *)
Ltac by_delivered lem :=
  intros H H0; eapply orderly_delivered; [|exact H0];
  eapply lem; [exact H | split; reflexivity].

Lemma orderly_nested cs s s' :
  nested cs s = Ok s' -> cs = [] -> orderly s -> orderly s'.
Proof. intros H Hc. rewrite (nested_silent H Hc). auto. Qed.

Lemma orderly_log e s : is_read e = false -> orderly s -> orderly (log e s).
Proof.
  intros He. apply orderly_delivered. apply delivered_log; [exact He|].
  split; reflexivity.
Qed.

Lemma orderly_InvokeQueued st m s :
  orderly s -> orderly (snd (InvokeQueued st m s)).
Proof.
  apply orderly_delivered, delivered_InvokeQueued. split; reflexivity.
Qed.

Lemma orderly_DestroySSL s : orderly s -> orderly (DestroySSL s).
Proof.
  apply orderly_delivered, delivered_DestroySSL. split; reflexivity.
Qed.

Lemma orderly_stream_write k bufs s res s' :
  stream_write k bufs s = Ok (res, s') -> orderly s -> orderly s'.
Proof. by_delivered delivered_stream_write. Qed.

Lemma orderly_EncOut s s' : EncOut s = Ok s' -> orderly s -> orderly s'.
Proof. by_delivered delivered_EncOut. Qed.

Lemma orderly_CertCbDone_body ctx s res s' :
  Code.CertCbDone_body nested ctx s = Ok (res, s') -> orderly s -> orderly s'.
Proof. by_delivered delivered_CertCbDone_body. Qed.

Lemma orderly_engine_call ev o s s' :
  Code.engine_call nested ev o s = Ok s' ->
  quiet_outcome o -> is_read ev = false -> orderly s -> orderly s'.
Proof.
  intros H Hq He H0. eapply orderly_delivered; [|exact H0].
  eapply delivered_engine_call; [exact H | exact Hq | exact He |].
  split; reflexivity.
Qed.

Lemma unended_engine_call ev o s s' :
  Code.engine_call nested ev o s = Ok s' ->
  quiet_outcome o -> is_read ev = false -> unended s -> unended s'.
Proof.
  intros H Hq He H0. eapply unended_delivered; [|exact H0].
  eapply delivered_engine_call; [exact H | exact Hq | exact He |].
  split; reflexivity.
Qed.

Lemma orderly_ClearIn s s' :
  Code.ClearIn nested s = Ok s' -> orderly s -> orderly s'.
Proof. by_delivered delivered_ClearIn. Qed.

Lemma orderly_OnStreamAfterWrite st s s' :
  Code.OnStreamAfterWrite nested st s = Ok s' -> orderly s -> orderly s'.
Proof. by_delivered delivered_OnStreamAfterWrite. Qed.

Lemma orderly_DoShutdown s res s' :
  Code.DoShutdown nested s = Ok (res, s') -> orderly s -> orderly s'.
Proof. by_delivered delivered_DoShutdown. Qed.

Lemma orderly_EnableSessionCallbacks s s' :
  EnableSessionCallbacks s = Ok s' -> orderly s -> orderly s'.
Proof. by_delivered delivered_EnableSessionCallbacks. Qed.

Hint Resolve orderly_nested orderly_log orderly_InvokeQueued
  orderly_DestroySSL orderly_stream_write orderly_EncOut
  orderly_CertCbDone_body orderly_engine_call orderly_ClearIn
  orderly_OnStreamAfterWrite orderly_DoShutdown
  orderly_EnableSessionCallbacks unended_orderly : sil.

(** Plaintext is handed over only while the end was not seen. *)
Lemma unended_emit_chunks n :
  forall data s d s',
  Code.emit_chunks nested n data s = Ok (d, s') -> unended s -> unended s'.
Proof.
  induction n as [|n IH]; intros data s d s' H H0; destruct data; simpl in H;
    try discriminate; try (injection H as <- <-; assumption).
  unfold bind, Code.EmitRead in H.
  rewrite (silent_onread Hsilent), nested_nil in H.
  match type of H with context [log ?e s] =>
    assert (H1 : unended (log e s)) by (apply unended_emit_data, H0)
  end.
  destruct (is_null _); [injection H as <- <-; assumption | eauto].
Qed.

Lemma unended_read_loop n :
  forall s last s',
  Code.read_loop nested n s = Ok (last, s') -> unended s -> unended s'.
Proof.
  induction n as [|n IH]; intros s last s' H H0; simpl in H;
    try discriminate.
  destruct (ssl_ s) eqn:Hs; [|discriminate].
  unfold bind in H.
  destruct (Code.engine_call _ _ _ _) as [s1| |] eqn:Hc; try discriminate.
  apply unended_engine_call in Hc;
    [|apply (silent_read Hsilent)|reflexivity|exact H0].
  destruct (o_ret _ <=? 0); [injection H as <- <-; assumption|].
  destruct (Code.emit_chunks _ _ _ _) as [[d s2]| |] eqn:He; try discriminate.
  apply unended_emit_chunks in He; [|exact Hc].
  destruct d; [injection H as <- <-; assumption | eauto].
Qed.

Lemma orderly_ClearOut s s' :
  Code.ClearOut fuel nested s = Ok s' -> orderly s -> orderly s'.
Proof.
  unfold Code.ClearOut. intros H H0. unfold bind in H.
  destruct (negb (IsEnded (hello_parser_ s))); [injection H as <-; auto|].
  destruct (eof_ s) eqn:He; [injection H as <-; auto|].
  destruct (is_null (ssl_ s)); [injection H as <-; auto|].
  destruct (Code.read_loop nested fuel s) as [[last s1]| |] eqn:Hr;
    try discriminate.
  apply unended_read_loop in Hr; [|apply orderly_unended; assumption].
  destruct last as [o|]; [|injection H as <-; auto with sil].
  destruct (ssl_ s1) as [ssl|]; [|discriminate].
  unfold Code.EmitRead in H.
  rewrite (silent_onread Hsilent), nested_nil in H.
  assert (H1 : orderly (log (EvEmitRead UV_EOF []) (set_eof_ true s1)))
    by (apply orderly_emit_eof, Hr).
  apply unended_orderly in Hr.
  break; eauto 8 with sil.
Qed.
Hint Resolve orderly_ClearOut : sil.

Lemma orderly_Cycle s s' :
  Code.Cycle fuel nested s = Ok s' -> orderly s -> orderly s'.
Proof. unfold Code.Cycle. intros H H0. break; eauto 8 with sil. Qed.
Hint Resolve orderly_Cycle : sil.

Lemma orderly_DoWrite w bufs sh s res s' :
  Code.DoWrite fuel nested w bufs sh s = Ok (res, s') ->
  orderly s -> orderly s'.
Proof. unfold Code.DoWrite. intros H H0. break; eauto 10 with sil. Qed.
Hint Resolve orderly_DoWrite : sil.

Lemma orderly_parser_End s s' :
  Code.parser_End fuel nested s = Ok s' -> orderly s -> orderly s'.
Proof. unfold Code.parser_End. intros H H0. break; eauto 8 with sil. Qed.
Hint Resolve orderly_parser_End : sil.

Lemma orderly_parser_Parse d s s' :
  Code.parser_Parse fuel nested d s = Ok s' -> orderly s -> orderly s'.
Proof. unfold Code.parser_Parse. intros H H0. break; eauto 8 with sil. Qed.
Hint Resolve orderly_parser_Parse : sil.

Lemma orderly_OnStreamRead nread buf s s' :
  Code.OnStreamRead fuel nested nread buf s = Ok s' ->
  orderly s -> orderly s'.
Proof.
  unfold Code.OnStreamRead, Code.EmitRead. intros H H0. unfold bind in H.
  destruct (nread <? 0) eqn:Hneg.
  - destruct (Code.ClearOut fuel nested s) as [s1| |] eqn:Hc;
      try discriminate.
    apply orderly_ClearOut in Hc; auto.
    rewrite (silent_onread Hsilent), nested_nil in H.
    destruct (nread =? UV_EOF) eqn:Hn; simpl in H.
    + apply Z.eqb_eq in Hn. subst nread.
      destruct (eof_ s1) eqn:He; simpl in H; injection H as <-; auto.
      apply orderly_emit_eof, orderly_unended; assumption.
    + injection H as <-. apply orderly_log; [|exact Hc].
      simpl. rewrite Hn, orb_false_r. apply Z.leb_gt, Z.ltb_lt, Hneg.
  - break; eauto 8 with sil.
Qed.
Hint Resolve orderly_OnStreamRead : sil.

Lemma orderly_Start s s' :
  Code.Start fuel nested s = Ok s' -> orderly s -> orderly s'.
Proof. unfold Code.Start. intros H H0. break; eauto 8 with sil. Qed.

Lemma orderly_CertCbDone ctx s s' :
  Code.CertCbDone fuel nested ctx s = Ok s' -> orderly s -> orderly s'.
Proof. unfold Code.CertCbDone. intros H H0. break; eauto 8 with sil. Qed.

Lemma orderly_NewSessionDone s s' :
  Code.NewSessionDone fuel nested s = Ok s' -> orderly s -> orderly s'.
Proof.
  unfold Code.NewSessionDone, Code.NewSessionDoneCb. intros H H0.
  eapply orderly_Cycle; [exact H|]. auto with sil.
Qed.

Lemma orderly_run_immediate i s s' :
  Code.run_immediate nested i s = Ok s' -> orderly s -> orderly s'.
Proof. unfold Code.run_immediate. intros H H0. break; eauto 8 with sil. Qed.

Hint Resolve orderly_Start orderly_CertCbDone orderly_NewSessionDone
  orderly_run_immediate : sil.

Lemma orderly_step_in op s s' :
  Code.step fuel nested op s = Ok s' -> orderly s -> orderly s'.
Proof.
  unfold Code.step, Code.EndParser, EnableCertCb. intros H H0.
  destruct op; break; eauto 8 with sil.
Qed.

Lemma orderly_run_in ops :
  forall s s', Code.run fuel nested ops s = Ok s' -> orderly s -> orderly s'.
Proof.
  induction ops as [|op ops IH]; intros s s' H H0; simpl in H.
  - injection H as <-; auto.
  - unfold bind in H.
    destruct (Code.step fuel nested op s) eqn:Hs; try discriminate.
    eauto using orderly_step_in.
Qed.

End Silent.

Lemma orderly_run (E : Env) (fuel : nat) (ops : list Op) (s s' : TLSWrap E) :
  silent E -> run fuel ops s = Ok s' -> orderly s -> orderly s'.
Proof.
  intros Hs. apply orderly_run_in; [exact Hs|]. intros t. apply js_nil.
Qed.

Lemma orderly_new (E : Env) (kind : Kind) (ssl : SSL E) (stream : Stream E) :
  orderly (TLSWrap_new E kind ssl stream).
Proof. split; [intros _|]; constructor. Qed.

(** *** EOF is signalled once (C6) *)

Lemma Demo_silent : silent Demo.env.
Proof.
  split; try reflexivity.
  - intros ssl i cb. unfold Demo.env, SSL_read, Demo.read.
    destruct i as [|x rest]; [simpl; tauto|].
    destruct x; try (simpl; tauto).
    + simpl. intros [<-|[<-|[<-|[]]]]; reflexivity.
    + destruct rest; simpl; tauto.
  - intros ssl d n i cb. unfold Demo.env, SSL_write, Demo.write.
    destruct ssl; simpl; tauto.
  - intros ssl i cb. simpl. tauto.
Qed.




(** *** The certificate gate (C7) *)

(** C7: in every state a run can reach in which a certificate decision
    is in flight ([cert_cb_running_] is set), [SSLCertCallback] returns
    -1, the suspend signal, and leaves the wrap as it is: the [oncertcb]
    handler is not called.  In any state whatever with a decision in
    flight the call returns and changes nothing, so the handler is
    called only when none is in flight. *)
Theorem C7_cert_gate (E : Env) (fuel : nat) (kind : Kind) (ssl : SSL E)
    (stream : Stream E) (ops : list Op) (s : TLSWrap E)
    (oncertcb : list Call)
    (Hrun : run fuel ops (TLSWrap_new E kind ssl stream) = Ok s)
    (Hflight : cert_cb_running_ s = true) :
  SSLCertCallback fuel oncertcb s = Ok (-1, s)
  /\ (forall (t : TLSWrap E) (oncertcb' : list Call),
        cert_cb_running_ t = true ->
        exists r, SSLCertCallback fuel oncertcb' t = Ok (r, t)).
Proof.
  pose proof (consistent_run _ _ Hrun (consistent_new E kind ssl stream))
    as (Hc & _ & _).
  destruct (Hc Hflight) as [Hsrv Hwait].
  split.
  - unfold SSLCertCallback, Code.SSLCertCallback.
    rewrite Hsrv, Hwait, Hflight. reflexivity.
  - intros t hd Ht. unfold SSLCertCallback, Code.SSLCertCallback.
    rewrite Ht.
    destruct (negb (is_server t)), (negb (is_waiting_cert_cb t));
      eexists; reflexivity.
Qed.

Lemma C7_cert_gate_witness :
  let s := Demo.after [OpEnableCertCb; OpStreamRead 1 [x16]] Demo.server in
  SSLCertCallback Demo.fuel [] s = Ok (-1, s)
  /\ (forall (t : TLSWrap Demo.env) (oncertcb' : list Call),
        cert_cb_running_ t = true ->
        exists r, SSLCertCallback Demo.fuel oncertcb' t = Ok (r, t)).
Proof.
  intros s.
  apply (@C7_cert_gate Demo.env Demo.fuel kServer Demo.Handshaking tt
           [OpEnableCertCb; OpStreamRead 1 [x16]]).
  - vm_compute. reflexivity.
  - vm_compute. reflexivity.
Defined.

(** *** Holding the handshake for the session store (C8) *)

(** With nothing in its way [EncOut] hands the first regions of the
    outgoing BIO to the transport. *)
Lemma EncOut_releases (E : Env) (s : TLSWrap E) (st : Stream E) :
  IsEnded (hello_parser_ s) = true ->
  write_size_ s = 0%nat ->
  awaiting_new_session_ s = false ->
  ssl_ s <> None ->
  enc_out_ s <> [] ->
  stream_ s = Some st ->
  let chunk := [firstn (PeekMultiple E (enc_out_ s)) (enc_out_ s)] in
  exists s' later,
    EncOut s = Ok s'
    /\ awaiting_new_session_ s' = false
    /\ write_size_ s' = PeekMultiple E (enc_out_ s)
    /\ trace_ s' =
         later ++ EvStreamWrite DataWrite chunk (fst (stream_Write E st chunk))
               :: trace_ s.
Proof.
  intros Hend Hws Haw Hssl Hout Hst chunk.
  assert (Hpk : PeekMultiple E (enc_out_ s) <> 0%nat).
  { unfold PeekMultiple. destruct (enc_out_ s); [congruence|simpl; lia]. }
  assert (Hbp : (BIO_pending (enc_out_ s) =? 0)%nat = false).
  { apply Nat.eqb_neq. unfold BIO_pending.
    destruct (enc_out_ s); [congruence|simpl; lia]. }
  apply is_null_false in Hssl. apply Nat.eqb_neq in Hpk.
  unfold EncOut, is_awaiting_new_session.
  rewrite Hend, Hws, Haw. simpl.
  set (u := if established_ s && negb (is_null (current_write_ s))
            then set_write_callback_scheduled_ true s else s).
  assert (Hu : ssl_ u = ssl_ s /\ enc_out_ u = enc_out_ s
               /\ stream_ u = stream_ s /\ trace_ u = trace_ s
               /\ awaiting_new_session_ u = false)
    by (subst u; destruct (_ && _); simpl; auto).
  destruct Hu as (Hu1 & Hu2 & Hu3 & Hu4 & Hu5).
  rewrite Hu1, Hssl, Hu2, Hbp. simpl. rewrite Hpk.
  unfold stream_write, bind. simpl. rewrite Hu3, Hst, ?Hu2. fold chunk.
  destruct (stream_Write E st chunk) as [res st']. simpl.
  destruct res as [| |e]; simpl.
  - eexists. exists []. split; [reflexivity|]. simpl. rewrite Hu4, Hu5.
    auto.
  - eexists. exists []. split; [reflexivity|]. simpl. rewrite Hu4, Hu5.
    auto.
  - destruct (negb (e =? 0)).
    + unfold InvokeQueued. simpl.
      destruct (negb (write_callback_scheduled_ u)); simpl.
      * eexists. exists []. split; [reflexivity|]. simpl. rewrite Hu4, Hu5.
        auto.
      * destruct (current_write_ u); simpl.
        -- eexists. eexists [_]. split; [reflexivity|]. simpl.
           rewrite Hu4, Hu5. auto.
        -- eexists. exists []. split; [reflexivity|]. simpl.
           rewrite Hu4, Hu5. auto.
    + eexists. exists []. split; [reflexivity|]. simpl. rewrite Hu4, Hu5.
      auto.
Qed.




(** *** The discipline of transport writes *)

Lemma write_discipline_frame (E : Env) (s s' : TLSWrap E) (dx ex : nat) :
  same_writes s s' ->
  write_discipline_with dx ex s -> write_discipline_with dx ex s'.
Proof.
  unfold same_writes. intros (Hw & Hc & Hf & Hi & Hs & Ht & Ho).
  unfold write_discipline_with, outstanding.
  rewrite Hw, Hc, Hf, Hi, Hs, Ht, Ho. tauto.
Qed.

Lemma committing_frame (E : Env) (s s' : TLSWrap E) :
  same_writes s s' -> committing s -> committing s'.
Proof.
  unfold same_writes. intros (Hw & Hc & Hf & Hi & Hs & Ht & Ho).
  unfold committing, outstanding.
  rewrite Hw, Hc, Hf, Hi, Hs, Ht. tauto.
Qed.

Create HintDb wd discriminated.
Create HintDb cm discriminated.

#[export] Hint Extern 2 (write_discipline_with _ _ (_ _ _)) =>
  frame_with write_discipline_frame : wd.
#[export] Hint Extern 2 (committing (_ _ _)) =>
  frame_with committing_frame : cm.

Ltac norm_bool :=
  repeat match goal with
  | H : negb _ = true |- _ => apply negb_true_iff in H
  | H : negb _ = false |- _ => apply negb_false_iff in H
  | H : (_ =? _)%nat = true |- _ => apply Nat.eqb_eq in H
  | H : (_ =? _)%nat = false |- _ => apply Nat.eqb_neq in H
  | H : (_ =? _)%Z = true |- _ => apply Z.eqb_eq in H
  | H : (_ =? _)%Z = false |- _ => apply Z.eqb_neq in H
  | H : is_null _ = true |- _ => apply is_null_true in H
  | H : is_null _ = false |- _ => apply is_null_false in H
  end.

Ltac wd_solve :=
  unfold write_discipline, write_discipline_with, committing, outstanding,
    SetImmediate, log in *;
  simpl in *; rewrite ?filter_app, ?length_app in *; simpl in *;
  intuition (try congruence; try lia).

Lemma PeekMultiple_le (E : Env) (b : bytes) :
  (@PeekMultiple E b <= length b)%nat.
Proof. unfold PeekMultiple. lia. Qed.

Lemma PeekMultiple_pos (E : Env) (b : bytes) :
  b <> [] -> (@PeekMultiple E b <> 0)%nat.
Proof. unfold PeekMultiple. destruct b; simpl; [congruence|lia]. Qed.

Lemma same_writes_InvokeQueued (E : Env) st m (s : TLSWrap E) :
  same_writes s (snd (InvokeQueued st m s)).
Proof. unfold InvokeQueued. break; repeat split; reflexivity. Qed.

(** Write in progress: [EncOut] does nothing. *)
Lemma EncOut_busy (E : Env) (s : TLSWrap E) :
  write_size_ s <> 0%nat -> EncOut s = Ok s.
Proof.
  intros H. unfold EncOut. apply Nat.eqb_neq in H. rewrite H.
  destruct (negb (IsEnded _)); reflexivity.
Qed.

(** **** While a completed write is being committed *)

Section Committing.

Variable E : Env.
Variable fuel : nat.
Variable nested : list Call -> TLSWrap E -> result (TLSWrap E).
Implicit Type s : TLSWrap E.

Hypothesis nested_committing :
  forall cs s s', nested cs s = Ok s' -> committing s -> committing s'.

Hint Resolve nested_committing : cm.

Lemma committing_log e s : committing s -> committing (log e s).
Proof. wd_solve. Qed.

Lemma committing_queue_invoke s :
  committing s -> committing (SetImmediate ImmInvokeQueued s).
Proof. wd_solve. Qed.

Lemma committing_InvokeQueued st m s :
  committing s -> committing (snd (InvokeQueued st m s)).
Proof. apply committing_frame, same_writes_InvokeQueued. Qed.

Lemma committing_DestroySSL s : committing s -> committing (DestroySSL s).
Proof.
  intros H. unfold DestroySSL, SSLWrap_DestroySSL.
  pose proof (same_writes_InvokeQueued UV_ECANCELED
                (Some "Canceled because of SSL destruction"%string)
                (set_write_callback_scheduled_ true s))
    as (Hw & Hc & Hf & Hi & Hs & Ht & Ho).
  simpl in *.
  remember (snd (InvokeQueued _ _ _)) as t.
  unfold committing, outstanding in *.
  break; simpl; rewrite ?Hw, ?Hc, ?Hf, ?Hi; intuition congruence.
Qed.

Lemma committing_EncOut s s' :
  EncOut s = Ok s' -> committing s -> committing s'.
Proof.
  intros H H0. rewrite EncOut_busy in H by apply H0.
  injection H as <-. exact H0.
Qed.

Hint Resolve committing_log committing_queue_invoke committing_InvokeQueued
  committing_DestroySSL committing_EncOut : cm.

Lemma committing_NewSessionCallback size js s r s' :
  Code.NewSessionCallback nested size js s = Ok (r, s') ->
  committing s -> committing s'.
Proof.
  unfold Code.NewSessionCallback. intros H H0. break; eauto 8 with cm.
Qed.

Lemma committing_CertCbDone_body ctx s r s' :
  Code.CertCbDone_body nested ctx s = Ok (r, s') ->
  committing s -> committing s'.
Proof.
  unfold Code.CertCbDone_body. intros H H0. break; eauto 8 with cm.
Qed.

Lemma committing_SSLCertCallback js s r s' :
  Code.SSLCertCallback nested js s = Ok (r, s') ->
  committing s -> committing s'.
Proof.
  unfold Code.SSLCertCallback. intros H H0. break; eauto 8 with cm.
Qed.

Lemma committing_SSLInfoCallback w p a b s s' :
  Code.SSLInfoCallback nested w p a b s = Ok s' ->
  committing s -> committing s'.
Proof.
  unfold Code.SSLInfoCallback. intros H H0. break; eauto 8 with cm.
Qed.

Hint Resolve committing_NewSessionCallback committing_CertCbDone_body
  committing_SSLCertCallback committing_SSLInfoCallback : cm.

Lemma committing_run_callback cb s s' :
  Code.run_callback nested cb s = Ok s' -> committing s -> committing s'.
Proof.
  unfold Code.run_callback. intros H H0. break; eauto 8 with cm.
Qed.

Lemma committing_run_callbacks cbs :
  forall s s', Code.run_callbacks nested cbs s = Ok s' ->
  committing s -> committing s'.
Proof.
  induction cbs as [|cb cbs IH]; intros s s' H H0; simpl in H.
  - injection H as <-; auto.
  - unfold bind in H.
    destruct (Code.run_callback nested cb s) eqn:Hc; try discriminate.
    eauto using committing_run_callback.
Qed.

Lemma committing_engine_call ev o s s' :
  Code.engine_call nested ev o s = Ok s' ->
  ssl_ s <> None -> committing s -> committing s'.
Proof.
  intros H Hs H0. unfold Code.engine_call in H.
  eapply committing_run_callbacks; [exact H|]. wd_solve.
Qed.

Hint Resolve committing_engine_call : cm.
Hint Extern 1 (ssl_ _ <> None) => simpl; congruence : cm.

Lemma committing_ClearIn s s' :
  Code.ClearIn nested s = Ok s' -> committing s -> committing s'.
Proof. unfold Code.ClearIn. intros H H0. break; eauto 8 with cm. Qed.
Hint Resolve committing_ClearIn : cm.

Lemma committing_EmitRead n d s s' :
  Code.EmitRead nested n d s = Ok s' -> committing s -> committing s'.
Proof. unfold Code.EmitRead. intros H H0. eauto 8 with cm. Qed.
Hint Resolve committing_EmitRead : cm.

Lemma committing_emit_chunks n :
  forall data s d s',
  Code.emit_chunks nested n data s = Ok (d, s') ->
  committing s -> committing s'.
Proof.
  induction n as [|n IH]; intros data s d s' H H0; destruct data; simpl in H;
    try discriminate; try (injection H as <- <-; assumption).
  unfold bind in H.
  destruct (Code.EmitRead _ _ _ _) as [s1| |] eqn:He; try discriminate.
  apply committing_EmitRead in He; [|exact H0].
  destruct (is_null _); [injection H as <- <-; assumption | eauto].
Qed.

Lemma committing_read_loop n :
  forall s r s',
  Code.read_loop nested n s = Ok (r, s') -> committing s -> committing s'.
Proof.
  induction n as [|n IH]; intros s r s' H H0; simpl in H; try discriminate.
  destruct (ssl_ s) eqn:Hs; [|discriminate].
  unfold bind in H.
  destruct (Code.engine_call _ _ _ _) as [s1| |] eqn:Hc; try discriminate.
  apply committing_engine_call in Hc; [|congruence|exact H0].
  destruct (o_ret _ <=? 0); [injection H as <- <-; assumption|].
  destruct (Code.emit_chunks _ _ _ _) as [[d s2]| |] eqn:He; try discriminate.
  apply committing_emit_chunks in He; [|exact Hc].
  destruct d; [injection H as <- <-; assumption | eauto].
Qed.
Hint Resolve committing_emit_chunks committing_read_loop : cm.

Lemma committing_ClearOut s s' :
  Code.ClearOut fuel nested s = Ok s' -> committing s -> committing s'.
Proof. unfold Code.ClearOut. intros H H0. break; eauto 10 with cm. Qed.
Hint Resolve committing_ClearOut : cm.

Lemma committing_Cycle s s' :
  Code.Cycle fuel nested s = Ok s' -> committing s -> committing s'.
Proof. unfold Code.Cycle. intros H H0. break; eauto 8 with cm. Qed.
Hint Resolve committing_Cycle : cm.

Lemma committing_DoWrite w bufs sh s r s' :
  Code.DoWrite fuel nested w bufs sh s = Ok (r, s') ->
  committing s -> committing s'.
Proof.
  unfold Code.DoWrite, stream_write. intros H H0. unfold bind in H.
  destruct sh; [discriminate|].
  destruct (ssl_ s) eqn:Hssl; [|injection H as <- <-; auto with cm].
  destruct (length (concat bufs) =? 0)%nat eqn:Hlen.
  - destruct (Code.ClearOut fuel nested s) as [s1| |] eqn:Hc;
      try discriminate.
    apply committing_ClearOut in Hc; [|exact H0]. simpl in H.
    destruct (BIO_pending (enc_out_ s1) =? 0)%nat eqn:Hp.
    + destruct (negb (is_null (current_empty_write_ s1))) eqn:Hcew;
        [discriminate|].
      simpl in H. destruct (stream_ s1) as [st|] eqn:Hst; [|discriminate].
      destruct (stream_Write E st bufs) as [res st'].
      simpl in H. injection H as <- <-.
      norm_bool.
      destruct res; wd_solve.
    + break; eauto 8 with cm.
  - break; eauto 10 with cm.
Qed.
Hint Resolve committing_DoWrite : cm.

Lemma committing_parser_End s s' :
  Code.parser_End fuel nested s = Ok s' -> committing s -> committing s'.
Proof. unfold Code.parser_End. intros H H0. break; eauto 8 with cm. Qed.

Lemma committing_Start s s' :
  Code.Start fuel nested s = Ok s' -> committing s -> committing s'.
Proof. unfold Code.Start. intros H H0. break; eauto 8 with cm. Qed.

Lemma committing_set_stream st s :
  stream_ s <> None -> committing s -> committing (set_stream_ (Some st) s).
Proof. wd_solve. Qed.

Lemma committing_DoShutdown s r s' :
  Code.DoShutdown nested s = Ok (r, s') -> committing s -> committing s'.
Proof.
  unfold Code.DoShutdown. intros H H0. unfold bind in H.
  match type of H with match ?t with Ok _ => _ | _ => _ end = _ =>
    destruct t as [s0| |] eqn:Ht0; try discriminate
  end.
  assert (H1 : committing s0) by (clear H; break; eauto 8 with cm).
  rewrite EncOut_busy in H by apply H1.
  simpl in H.
  destruct (stream_ s0) as [st|] eqn:Hst; [|discriminate].
  destruct (stream_DoShutdown E st) as [r' st'].
  injection H as <- <-.
  frame_with committing_frame.
  apply committing_set_stream; [simpl; congruence|].
  frame_with committing_frame. exact H1.
Qed.

Lemma committing_EnableSessionCallbacks s s' :
  EnableSessionCallbacks s = Ok s' -> committing s -> committing s'.
Proof.
  unfold EnableSessionCallbacks, parser_Start. intros H H0.
  break; eauto 8 with cm.
Qed.

Lemma committing_CertCbDone ctx s s' :
  Code.CertCbDone fuel nested ctx s = Ok s' -> committing s -> committing s'.
Proof. unfold Code.CertCbDone. intros H H0. break; eauto 8 with cm. Qed.

Lemma committing_NewSessionDone s s' :
  Code.NewSessionDone fuel nested s = Ok s' -> committing s -> committing s'.
Proof.
  unfold Code.NewSessionDone, Code.NewSessionDoneCb. intros H H0.
  eapply committing_Cycle; [exact H|]. auto with cm.
Qed.

Hint Resolve committing_parser_End committing_Start committing_DoShutdown
  committing_EnableSessionCallbacks committing_CertCbDone
  committing_NewSessionDone : cm.

(** What JavaScript can call keeps the commit going. *)
Lemma committing_call c s s' :
  Code.step fuel nested (op_of c) s = Ok s' -> committing s -> committing s'.
Proof.
  unfold Code.step, Code.EndParser, EnableCertCb. intros H H0.
  destruct c; break; eauto 8 with cm.
Qed.

Lemma committing_calls cs :
  forall s s', Code.run fuel nested (map op_of cs) s = Ok s' ->
  committing s -> committing s'.
Proof.
  induction cs as [|c cs IH]; intros s s' H H0; simpl in H.
  - injection H as <-; auto.
  - unfold bind in H.
    destruct (Code.step fuel nested (op_of c) s) eqn:Hs; try discriminate.
    eauto using committing_call.
Qed.

End Committing.

Lemma committing_js (E : Env) (fuel : nat) :
  forall cs (s s' : TLSWrap E),
  js E fuel cs s = Ok s' -> committing s -> committing s'.
Proof.
  induction fuel as [|n IH]; intros cs s s' H H0; destruct cs;
    try (rewrite js_nil in H; injection H as <-; assumption);
    try discriminate.
  eapply (@committing_calls E n (js E n) IH (c :: cs)); [exact H | exact H0].
Qed.

(** **** Between operations *)

Section WriteDiscipline.

Variable E : Env.
Variable fuel : nat.
Variable nested : list Call -> TLSWrap E -> result (TLSWrap E).
Implicit Type s : TLSWrap E.

Hypothesis nested_wd :
  forall cs s s', nested cs s = Ok s' ->
  write_discipline_with 0 0 s -> write_discipline_with 0 0 s'.

Hypothesis nested_committing :
  forall cs s s', nested cs s = Ok s' -> committing s -> committing s'.

Hint Resolve nested_wd : wd.

Lemma wd_new kind ssl stream :
  write_discipline (TLSWrap_new E kind ssl stream).
Proof. wd_solve. Qed.

Lemma wd_log e s dx ex :
  write_discipline_with dx ex s -> write_discipline_with dx ex (log e s).
Proof. wd_solve. Qed.

Lemma wd_queue_invoke s dx ex :
  write_discipline_with dx ex s ->
  write_discipline_with dx ex (SetImmediate ImmInvokeQueued s).
Proof. wd_solve. Qed.

Lemma wd_InvokeQueued st m s dx ex :
  write_discipline_with dx ex s ->
  write_discipline_with dx ex (snd (InvokeQueued st m s)).
Proof. apply write_discipline_frame, same_writes_InvokeQueued. Qed.

Lemma wd_DestroySSL s dx ex :
  write_discipline_with dx ex s -> write_discipline_with dx ex (DestroySSL s).
Proof.
  intros H. unfold DestroySSL, SSLWrap_DestroySSL.
  pose proof (same_writes_InvokeQueued UV_ECANCELED
                (Some "Canceled because of SSL destruction"%string)
                (set_write_callback_scheduled_ true s))
    as (Hw & Hc & Hf & Hi & Hs & Ht & Ho).
  simpl in *.
  remember (snd (InvokeQueued _ _ _)) as t.
  unfold write_discipline_with, outstanding in *.
  break; simpl; rewrite ?Hw, ?Hc, ?Hf, ?Hi; intuition congruence.
Qed.

Hint Resolve wd_log wd_queue_invoke wd_InvokeQueued wd_DestroySSL : wd.

Lemma wd_NewSessionCallback size js s r s' :
  Code.NewSessionCallback nested size js s = Ok (r, s') ->
  write_discipline_with 0 0 s -> write_discipline_with 0 0 s'.
Proof.
  unfold Code.NewSessionCallback. intros H H0. break; eauto 8 with wd.
Qed.

Lemma wd_CertCbDone_body ctx s r s' :
  Code.CertCbDone_body nested ctx s = Ok (r, s') ->
  write_discipline_with 0 0 s -> write_discipline_with 0 0 s'.
Proof.
  unfold Code.CertCbDone_body. intros H H0. break; eauto 8 with wd.
Qed.

Lemma wd_SSLCertCallback js s r s' :
  Code.SSLCertCallback nested js s = Ok (r, s') ->
  write_discipline_with 0 0 s -> write_discipline_with 0 0 s'.
Proof.
  unfold Code.SSLCertCallback. intros H H0. break; eauto 8 with wd.
Qed.

Lemma wd_SSLInfoCallback w p a b s s' :
  Code.SSLInfoCallback nested w p a b s = Ok s' ->
  write_discipline_with 0 0 s -> write_discipline_with 0 0 s'.
Proof.
  unfold Code.SSLInfoCallback. intros H H0. break; eauto 8 with wd.
Qed.

Hint Resolve wd_NewSessionCallback wd_CertCbDone_body wd_SSLCertCallback
  wd_SSLInfoCallback : wd.

Lemma wd_run_callback cb s s' :
  Code.run_callback nested cb s = Ok s' ->
  write_discipline_with 0 0 s -> write_discipline_with 0 0 s'.
Proof.
  unfold Code.run_callback. intros H H0. break; eauto 8 with wd.
Qed.

Lemma wd_run_callbacks cbs :
  forall s s', Code.run_callbacks nested cbs s = Ok s' ->
  write_discipline_with 0 0 s -> write_discipline_with 0 0 s'.
Proof.
  induction cbs as [|cb cbs IH]; intros s s' H H0; simpl in H.
  - injection H as <-; auto.
  - unfold bind in H.
    destruct (Code.run_callback nested cb s) eqn:Hc; try discriminate.
    eauto using wd_run_callback.
Qed.

Lemma wd_engine_call ev o s s' :
  Code.engine_call nested ev o s = Ok s' ->
  ssl_ s <> None ->
  write_discipline_with 0 0 s -> write_discipline_with 0 0 s'.
Proof.
  intros H Hs H0. unfold Code.engine_call in H.
  eapply wd_run_callbacks; [exact H|]. wd_solve.
Qed.

Hint Resolve wd_engine_call : wd.
Hint Extern 1 (ssl_ _ <> None) => simpl; congruence : wd.

Lemma wd_ClearIn s s' :
  Code.ClearIn nested s = Ok s' ->
  write_discipline_with 0 0 s -> write_discipline_with 0 0 s'.
Proof. unfold Code.ClearIn. intros H H0. break; eauto 8 with wd. Qed.
Hint Resolve wd_ClearIn : wd.

Lemma wd_EmitRead n d s s' :
  Code.EmitRead nested n d s = Ok s' ->
  write_discipline_with 0 0 s -> write_discipline_with 0 0 s'.
Proof. unfold Code.EmitRead. intros H H0. eauto 8 with wd. Qed.
Hint Resolve wd_EmitRead : wd.

Lemma wd_emit_chunks n :
  forall data s d s',
  Code.emit_chunks nested n data s = Ok (d, s') ->
  write_discipline_with 0 0 s -> write_discipline_with 0 0 s'.
Proof.
  induction n as [|n IH]; intros data s d s' H H0; destruct data; simpl in H;
    try discriminate; try (injection H as <- <-; assumption).
  unfold bind in H.
  destruct (Code.EmitRead _ _ _ _) as [s1| |] eqn:He; try discriminate.
  apply wd_EmitRead in He; [|exact H0].
  destruct (is_null _); [injection H as <- <-; assumption | eauto].
Qed.

Lemma wd_read_loop n :
  forall s r s',
  Code.read_loop nested n s = Ok (r, s') ->
  write_discipline_with 0 0 s -> write_discipline_with 0 0 s'.
Proof.
  induction n as [|n IH]; intros s r s' H H0; simpl in H; try discriminate.
  destruct (ssl_ s) eqn:Hs; [|discriminate].
  unfold bind in H.
  destruct (Code.engine_call _ _ _ _) as [s1| |] eqn:Hc; try discriminate.
  apply wd_engine_call in Hc; [|congruence|exact H0].
  destruct (o_ret _ <=? 0); [injection H as <- <-; assumption|].
  destruct (Code.emit_chunks _ _ _ _) as [[d s2]| |] eqn:He; try discriminate.
  apply wd_emit_chunks in He; [|exact Hc].
  destruct d; [injection H as <- <-; assumption | eauto].
Qed.

Hint Resolve wd_emit_chunks wd_read_loop : wd.

Lemma wd_EncOut s s' :
  EncOut s = Ok s' ->
  write_discipline_with 0 0 s -> write_discipline_with 0 0 s'.
Proof.
  unfold EncOut, stream_write. intros H H0.
  pose proof (PeekMultiple_le E (enc_out_ s)) as Hle.
  break; auto 8 with wd.
  all: match goal with r : StreamWriteResult |- _ => destruct r end;
    simpl in *; try discriminate.
  all: try apply wd_InvokeQueued.
  all: norm_bool; unfold BIO_pending in *; wd_solve.
Qed.
Hint Resolve wd_EncOut : wd.

Lemma wd_ClearOut s s' :
  Code.ClearOut fuel nested s = Ok s' ->
  write_discipline_with 0 0 s -> write_discipline_with 0 0 s'.
Proof. unfold Code.ClearOut. intros H H0. break; eauto 10 with wd. Qed.
Hint Resolve wd_ClearOut : wd.

Lemma wd_Cycle s s' :
  Code.Cycle fuel nested s = Ok s' ->
  write_discipline_with 0 0 s -> write_discipline_with 0 0 s'.
Proof. unfold Code.Cycle. intros H H0. break; eauto 8 with wd. Qed.
Hint Resolve wd_Cycle : wd.

(** The commit begins: the completed write is off the books, and its
    size still is in [write_size_]. *)
Lemma committing_begins k s :
  current_empty_write_ s = None -> ssl_ s <> None ->
  write_discipline_with (popped_data k) (popped_empty k) s ->
  committing (set_enc_out_ (skipn (write_size_ s) (enc_out_ s)) s).
Proof. intros Hc Hs H. destruct k; wd_solve. Qed.

(** The commit ends with [write_size_] reset. *)
Lemma committing_ends s :
  committing s -> write_discipline_with 0 0 (set_write_size_ 0%nat s).
Proof. intros H. wd_solve. Qed.

Lemma wd_OnStreamAfterWrite k st s s' :
  Code.OnStreamAfterWrite nested st s = Ok s' ->
  write_discipline_with (popped_data k) (popped_empty k) s ->
  write_discipline_with 0 0 s'.
Proof.
  unfold Code.OnStreamAfterWrite. intros H H0.
  destruct (current_empty_write_ s) as [w|] eqn:Hcew.
  - injection H as <-. destruct k; wd_solve.
  - destruct (negb _) eqn:Hst.
    + assert (write_discipline_with 0 0 s) by (destruct k; wd_solve).
      break; auto with wd.
    + unfold bind in H.
      destruct (Code.ClearIn _ _) as [s2| |] eqn:Hc; try discriminate.
      apply wd_EncOut in H; [exact H|].
      apply committing_ends.
      eapply committing_ClearIn; [exact nested_committing | exact Hc |].
      destruct (is_null (ssl_ s)) eqn:Hn; [discriminate|].
      norm_bool. apply committing_begins with (k := k); assumption.
Qed.

Lemma wd_DoWrite w bufs sh s r s' :
  Code.DoWrite fuel nested w bufs sh s = Ok (r, s') ->
  write_discipline_with 0 0 s -> write_discipline_with 0 0 s'.
Proof.
  unfold Code.DoWrite, stream_write. intros H H0. unfold bind in H.
  destruct sh; [discriminate|].
  destruct (ssl_ s) eqn:Hssl; [|injection H as <- <-; auto with wd].
  destruct (length (concat bufs) =? 0)%nat eqn:Hlen.
  - destruct (Code.ClearOut fuel nested s) as [s1| |] eqn:Hc;
      try discriminate.
    apply wd_ClearOut in Hc; [|exact H0]. simpl in H.
    destruct (BIO_pending (enc_out_ s1) =? 0)%nat eqn:Hp.
    + destruct (negb (is_null (current_empty_write_ s1))) eqn:Hcew;
        [discriminate|].
      simpl in H. destruct (stream_ s1) as [st|] eqn:Hst; [|discriminate].
      destruct (stream_Write E st bufs) as [res st'].
      simpl in H. injection H as <- <-.
      norm_bool. unfold BIO_pending in *.
      destruct res; wd_solve.
    + break; eauto 8 with wd.
  - break; eauto 10 with wd.
Qed.

Lemma wd_parser_End s s' :
  Code.parser_End fuel nested s = Ok s' ->
  write_discipline_with 0 0 s -> write_discipline_with 0 0 s'.
Proof. unfold Code.parser_End. intros H H0. break; eauto 8 with wd. Qed.
Hint Resolve wd_DoWrite wd_parser_End : wd.

Lemma wd_parser_Parse d s s' :
  Code.parser_Parse fuel nested d s = Ok s' ->
  write_discipline_with 0 0 s -> write_discipline_with 0 0 s'.
Proof. unfold Code.parser_Parse. intros H H0. break; eauto 8 with wd. Qed.
Hint Resolve wd_parser_Parse : wd.

Lemma wd_OnStreamRead nread buf s s' :
  Code.OnStreamRead fuel nested nread buf s = Ok s' ->
  write_discipline_with 0 0 s -> write_discipline_with 0 0 s'.
Proof.
  unfold Code.OnStreamRead. intros H H0. break; eauto 8 with wd.
Qed.

Lemma wd_Start s s' :
  Code.Start fuel nested s = Ok s' ->
  write_discipline_with 0 0 s -> write_discipline_with 0 0 s'.
Proof. unfold Code.Start. intros H H0. break; eauto 8 with wd. Qed.

Lemma wd_set_stream st s dx ex :
  stream_ s <> None ->
  write_discipline_with dx ex s ->
  write_discipline_with dx ex (set_stream_ (Some st) s).
Proof. wd_solve. Qed.

Lemma EncOut_stream s s' :
  EncOut s = Ok s' -> stream_ s' <> None -> stream_ s <> None.
Proof.
  unfold EncOut, stream_write. intros H.
  break; auto;
    try match goal with |- context [InvokeQueued ?a ?b ?c] =>
      destruct (same_writes_InvokeQueued a b c) as (_ & _ & _ & _ & _ & -> & _)
    end; simpl; congruence.
Qed.

Lemma wd_DoShutdown s r s' :
  Code.DoShutdown nested s = Ok (r, s') ->
  write_discipline_with 0 0 s -> write_discipline_with 0 0 s'.
Proof.
  unfold Code.DoShutdown. intros H H0. unfold bind in H.
  match type of H with match ?t with Ok _ => _ | _ => _ end = _ =>
    destruct t as [s0| |] eqn:Ht0; try discriminate
  end.
  assert (H1 : write_discipline_with 0 0 s0)
    by (clear H; break; eauto 8 with wd).
  destruct (EncOut _) as [s1| |] eqn:He; try discriminate.
  apply wd_EncOut in He; [|frame_with write_discipline_frame; exact H1].
  destruct (stream_ s1) as [st|] eqn:Hst; [|discriminate].
  destruct (stream_DoShutdown E st) as [r' st'].
  injection H as <- <-.
  frame_with write_discipline_frame.
  apply wd_set_stream; [congruence|exact He].
Qed.

Lemma wd_EnableSessionCallbacks s s' :
  EnableSessionCallbacks s = Ok s' ->
  write_discipline_with 0 0 s -> write_discipline_with 0 0 s'.
Proof.
  unfold EnableSessionCallbacks, parser_Start. intros H H0.
  break; eauto 8 with wd.
Qed.

Lemma wd_CertCbDone ctx s s' :
  Code.CertCbDone fuel nested ctx s = Ok s' ->
  write_discipline_with 0 0 s -> write_discipline_with 0 0 s'.
Proof. unfold Code.CertCbDone. intros H H0. break; eauto 8 with wd. Qed.

Lemma wd_NewSessionDone s s' :
  Code.NewSessionDone fuel nested s = Ok s' ->
  write_discipline_with 0 0 s -> write_discipline_with 0 0 s'.
Proof.
  unfold Code.NewSessionDone, Code.NewSessionDoneCb. intros H H0.
  eapply wd_Cycle; [exact H|]. auto with wd.
Qed.

Hint Resolve wd_OnStreamRead wd_Start wd_DoShutdown
  wd_EnableSessionCallbacks wd_CertCbDone wd_NewSessionDone : wd.

Lemma wd_step_in op s s' :
  Code.step fuel nested op s = Ok s' ->
  write_discipline_with 0 0 s -> write_discipline_with 0 0 s'.
Proof.
  unfold Code.step, Code.EndParser, EnableCertCb, Code.run_immediate.
  intros H H0.
  destruct op; try solve [break; eauto 8 with wd].
  - (* a completion from the transport *)
    destruct (in_flight_ s) as [|k rest] eqn:Hf; [injection H as <-; auto|].
    apply wd_OnStreamAfterWrite with (k := k) in H; [exact H|].
    unfold write_discipline_with, outstanding in *. rewrite Hf in H0.
    destruct k; simpl in *; intuition (try congruence; try lia).
  - (* an immediate *)
    destruct (immediates_ s) as [|i rest] eqn:Hi; [injection H as <-; auto|].
    destruct i as [|k].
    + injection H as <-. apply wd_InvokeQueued.
      unfold write_discipline_with, outstanding in *. rewrite Hi in H0.
      simpl in *. exact H0.
    + apply wd_OnStreamAfterWrite with (k := k) in H; [exact H|].
      unfold write_discipline_with, outstanding in *. rewrite Hi in H0.
      destruct k; simpl in *; intuition (try congruence; try lia).
Qed.

Lemma wd_run_in ops :
  forall s s', Code.run fuel nested ops s = Ok s' ->
  write_discipline_with 0 0 s -> write_discipline_with 0 0 s'.
Proof.
  induction ops as [|op ops IH]; intros s s' H H0; simpl in H.
  - injection H as <-; auto.
  - unfold bind in H.
    destruct (Code.step fuel nested op s) eqn:Hs; try discriminate.
    eauto using wd_step_in.
Qed.

End WriteDiscipline.

Lemma wd_js (E : Env) (fuel : nat) :
  forall cs (s s' : TLSWrap E),
  js E fuel cs s = Ok s' ->
  write_discipline_with 0 0 s -> write_discipline_with 0 0 s'.
Proof.
  induction fuel as [|n IH]; intros cs s s' H H0; destruct cs;
    try (rewrite js_nil in H; injection H as <-; assumption);
    try discriminate.
  eapply wd_run_in; [exact IH | apply committing_js | exact H | exact H0].
Qed.

Lemma wd_run (E : Env) (fuel : nat) (ops : list Op) (s s' : TLSWrap E) :
  run fuel ops s = Ok s' ->
  write_discipline_with 0 0 s -> write_discipline_with 0 0 s'.
Proof. apply wd_run_in; [apply wd_js | apply committing_js]. Qed.

(** *** While a data write is in progress *)

Lemma busy_frame (E : Env) (s s' : TLSWrap E) (n : nat) :
  same_size s s' -> busy n s -> busy n s'.
Proof. unfold same_size, busy. congruence. Qed.

Create HintDb busy discriminated.

#[export] Hint Extern 2 (busy _ (_ _ _)) => frame_with busy_frame : busy.

Section Busy.

Variable E : Env.
Variable fuel : nat.
Variable nested : list Call -> TLSWrap E -> result (TLSWrap E).
Variable n : nat.
Implicit Type s : TLSWrap E.

Hypothesis nested_busy :
  forall cs s s', nested cs s = Ok s' -> busy n s -> busy n s'.

Hint Resolve nested_busy : busy.

Lemma busy_log e s : busy n s -> busy n (log e s).
Proof. intros H. exact H. Qed.

Lemma busy_SetImmediate i s : busy n s -> busy n (SetImmediate i s).
Proof. intros H. exact H. Qed.

Lemma busy_InvokeQueued st m s :
  busy n s -> busy n (snd (InvokeQueued st m s)).
Proof.
  apply busy_frame. destruct (same_writes_InvokeQueued st m s) as [H _].
  exact H.
Qed.

Lemma busy_DestroySSL s : busy n s -> busy n (DestroySSL s).
Proof.
  unfold DestroySSL, SSLWrap_DestroySSL. intros H.
  break; repeat frame_with busy_frame;
    apply busy_InvokeQueued; auto with busy.
Qed.

Lemma busy_EncOut s s' : EncOut s = Ok s' -> busy n s -> busy n s'.
Proof.
  intros H H0. rewrite EncOut_busy in H by (rewrite H0; discriminate).
  injection H as <-. exact H0.
Qed.

Hint Resolve busy_log busy_SetImmediate busy_InvokeQueued busy_DestroySSL
  busy_EncOut : busy.

Lemma busy_NewSessionCallback size js s r s' :
  Code.NewSessionCallback nested size js s = Ok (r, s') ->
  busy n s -> busy n s'.
Proof.
  unfold Code.NewSessionCallback. intros H H0. break; eauto 8 with busy.
Qed.

Lemma busy_CertCbDone_body ctx s r s' :
  Code.CertCbDone_body nested ctx s = Ok (r, s') -> busy n s -> busy n s'.
Proof.
  unfold Code.CertCbDone_body. intros H H0. break; eauto 8 with busy.
Qed.

Lemma busy_SSLCertCallback js s r s' :
  Code.SSLCertCallback nested js s = Ok (r, s') -> busy n s -> busy n s'.
Proof.
  unfold Code.SSLCertCallback. intros H H0. break; eauto 8 with busy.
Qed.

Lemma busy_SSLInfoCallback w p a b s s' :
  Code.SSLInfoCallback nested w p a b s = Ok s' -> busy n s -> busy n s'.
Proof.
  unfold Code.SSLInfoCallback. intros H H0. break; eauto 8 with busy.
Qed.

Hint Resolve busy_NewSessionCallback busy_CertCbDone_body
  busy_SSLCertCallback busy_SSLInfoCallback : busy.

Lemma busy_run_callback cb s s' :
  Code.run_callback nested cb s = Ok s' -> busy n s -> busy n s'.
Proof.
  unfold Code.run_callback. intros H H0. break; eauto 8 with busy.
Qed.

Lemma busy_run_callbacks cbs :
  forall s s', Code.run_callbacks nested cbs s = Ok s' ->
  busy n s -> busy n s'.
Proof.
  induction cbs as [|cb cbs IH]; intros s s' H H0; simpl in H.
  - injection H as <-; auto.
  - unfold bind in H.
    destruct (Code.run_callback nested cb s) eqn:Hc; try discriminate.
    eauto using busy_run_callback.
Qed.

Lemma busy_engine_call ev o s s' :
  Code.engine_call nested ev o s = Ok s' -> busy n s -> busy n s'.
Proof.
  intros H H0. unfold Code.engine_call in H.
  eapply busy_run_callbacks; [exact H|]. exact H0.
Qed.
Hint Resolve busy_engine_call : busy.

Lemma busy_ClearIn s s' :
  Code.ClearIn nested s = Ok s' -> busy n s -> busy n s'.
Proof. unfold Code.ClearIn. intros H H0. break; eauto 8 with busy. Qed.
Hint Resolve busy_ClearIn : busy.

Lemma busy_EmitRead k d s s' :
  Code.EmitRead nested k d s = Ok s' -> busy n s -> busy n s'.
Proof. unfold Code.EmitRead. intros H H0. eauto 8 with busy. Qed.
Hint Resolve busy_EmitRead : busy.

Lemma busy_emit_chunks k :
  forall data s d s',
  Code.emit_chunks nested k data s = Ok (d, s') -> busy n s -> busy n s'.
Proof.
  induction k as [|k IH]; intros data s d s' H H0; destruct data;
    simpl in H; try discriminate; try (injection H as <- <-; assumption).
  unfold bind in H.
  destruct (Code.EmitRead _ _ _ _) as [s1| |] eqn:He; try discriminate.
  apply busy_EmitRead in He; [|exact H0].
  destruct (is_null _); [injection H as <- <-; assumption | eauto].
Qed.

Lemma busy_read_loop k :
  forall s r s',
  Code.read_loop nested k s = Ok (r, s') -> busy n s -> busy n s'.
Proof.
  induction k as [|k IH]; intros s r s' H H0; simpl in H; try discriminate.
  destruct (ssl_ s) eqn:Hs; [|discriminate].
  unfold bind in H.
  destruct (Code.engine_call _ _ _ _) as [s1| |] eqn:Hc; try discriminate.
  apply busy_engine_call in Hc; [|exact H0].
  destruct (o_ret _ <=? 0); [injection H as <- <-; assumption|].
  destruct (Code.emit_chunks _ _ _ _) as [[d s2]| |] eqn:He; try discriminate.
  apply busy_emit_chunks in He; [|exact Hc].
  destruct d; [injection H as <- <-; assumption | eauto].
Qed.

Hint Resolve busy_emit_chunks busy_read_loop : busy.

Lemma busy_ClearOut s s' :
  Code.ClearOut fuel nested s = Ok s' -> busy n s -> busy n s'.
Proof. unfold Code.ClearOut. intros H H0. break; eauto 10 with busy. Qed.
Hint Resolve busy_ClearOut : busy.

Lemma busy_Cycle s s' :
  Code.Cycle fuel nested s = Ok s' -> busy n s -> busy n s'.
Proof. unfold Code.Cycle. intros H H0. break; eauto 8 with busy. Qed.
Hint Resolve busy_Cycle : busy.

Lemma busy_DoWrite w bufs sh s r s' :
  Code.DoWrite fuel nested w bufs sh s = Ok (r, s') -> busy n s -> busy n s'.
Proof.
  unfold Code.DoWrite, stream_write. intros H H0. break; eauto 10 with busy.
Qed.

Lemma busy_parser_End s s' :
  Code.parser_End fuel nested s = Ok s' -> busy n s -> busy n s'.
Proof. unfold Code.parser_End. intros H H0. break; eauto 8 with busy. Qed.
Hint Resolve busy_DoWrite busy_parser_End : busy.

Lemma busy_parser_Parse d s s' :
  Code.parser_Parse fuel nested d s = Ok s' -> busy n s -> busy n s'.
Proof. unfold Code.parser_Parse. intros H H0. break; eauto 8 with busy. Qed.
Hint Resolve busy_parser_Parse : busy.

Lemma busy_OnStreamRead nread buf s s' :
  Code.OnStreamRead fuel nested nread buf s = Ok s' ->
  busy n s -> busy n s'.
Proof.
  unfold Code.OnStreamRead. intros H H0. break; eauto 8 with busy.
Qed.

Lemma busy_Start s s' :
  Code.Start fuel nested s = Ok s' -> busy n s -> busy n s'.
Proof. unfold Code.Start. intros H H0. break; eauto 8 with busy. Qed.

Lemma busy_DoShutdown s r s' :
  Code.DoShutdown nested s = Ok (r, s') -> busy n s -> busy n s'.
Proof. unfold Code.DoShutdown. intros H H0. break; eauto 10 with busy. Qed.

Lemma busy_EnableSessionCallbacks s s' :
  EnableSessionCallbacks s = Ok s' -> busy n s -> busy n s'.
Proof.
  unfold EnableSessionCallbacks, parser_Start. intros H H0.
  break; eauto 8 with busy.
Qed.

Lemma busy_CertCbDone ctx s s' :
  Code.CertCbDone fuel nested ctx s = Ok s' -> busy n s -> busy n s'.
Proof. unfold Code.CertCbDone. intros H H0. break; eauto 8 with busy. Qed.

Lemma busy_NewSessionDone s s' :
  Code.NewSessionDone fuel nested s = Ok s' -> busy n s -> busy n s'.
Proof.
  unfold Code.NewSessionDone, Code.NewSessionDoneCb. intros H H0.
  eapply busy_Cycle; [exact H|]. auto with busy.
Qed.

Hint Resolve busy_OnStreamRead busy_Start busy_DoShutdown
  busy_EnableSessionCallbacks busy_CertCbDone busy_NewSessionDone : busy.

(** Every operation that is not a completion keeps [write_size_]. *)
Lemma busy_step_in op s s' :
  Code.step fuel nested op s = Ok s' ->
  (forall st, op <> OpAfterWrite st) -> op <> OpImmediate ->
  busy n s -> busy n s'.
Proof.
  unfold Code.step, Code.EndParser, EnableCertCb. intros H Ha Hi H0.
  destruct op; try solve [break; eauto 8 with busy].
  - exfalso. eapply Ha. reflexivity.
  - congruence.
Qed.

Lemma busy_calls cs :
  forall s s', Code.run fuel nested (map op_of cs) s = Ok s' ->
  busy n s -> busy n s'.
Proof.
  induction cs as [|c cs IH]; intros s s' H H0; simpl in H.
  - injection H as <-; auto.
  - unfold bind in H.
    destruct (Code.step fuel nested (op_of c) s) eqn:Hs; try discriminate.
    eapply IH; [exact H|].
    eapply busy_step_in; [exact Hs | | | exact H0];
      destruct c; discriminate.
Qed.

End Busy.

Lemma busy_js (E : Env) (n : nat) (fuel : nat) :
  forall cs (s s' : TLSWrap E),
  js E fuel cs s = Ok s' -> busy n s -> busy n s'.
Proof.
  induction fuel as [|k IH]; intros cs s s' H H0; destruct cs;
    try (rewrite js_nil in H; injection H as <-; assumption);
    try discriminate.
  eapply (@busy_calls E k (js E k) n IH (c :: cs)); [exact H | exact H0].
Qed.

Lemma busy_step (E : Env) (fuel n : nat) (op : Op) (s s' : TLSWrap E) :
  step fuel op s = Ok s' ->
  (forall st, op <> OpAfterWrite st) -> op <> OpImmediate ->
  busy n s -> busy n s'.
Proof. apply busy_step_in, busy_js. Qed.

(** *** One data write at a time (C2) *)

(** C2, as the claim words it, fails: a server answers the ClientHello,
    the transport completes that write, an empty plaintext write is
    passed on to the transport, and while it is pending a further
    handshake record makes [EncOut] issue the next data write: two
    transport writes wait for their completion. *)
Lemma C2_two_writes_counterexample :
  let ops := [OpStreamRead 1 [x16]; OpAfterWrite 0; OpDoWrite 1%nat [];
              OpStreamRead 1 [x16]] in
  run Demo.fuel ops Demo.server = Ok (Demo.after ops Demo.server)
  /\ in_flight_ (Demo.after ops Demo.server) = [EmptyWrite; DataWrite]
  /\ (outstanding EmptyWrite (Demo.after ops Demo.server)
      + outstanding DataWrite (Demo.after ops Demo.server) = 2)%nat.
Proof.
  vm_compute. repeat split; reflexivity.
Qed.

(** C2 (amended): along every run of a new wrap at most one transport
    write issued by [EncOut] waits for its completion, and none does
    when [write_size_] is zero; besides it, while the engine lives, at
    most one empty write that [DoWrite] passed on to the transport can
    wait.  While [write_size_] is not zero [EncOut] returns at once
    without writing, and only a completion ([OnStreamAfterWrite], from
    the transport or from the immediate queue) changes [write_size_]. *)
Theorem C2_single_data_write (E : Env) (fuel : nat) (kind : Kind)
    (ssl : SSL E) (stream : Stream E) (ops : list Op) (s : TLSWrap E)
    (Hrun : run fuel ops (TLSWrap_new E kind ssl stream) = Ok s) :
  (outstanding DataWrite s <= 1)%nat
  /\ (write_size_ s = 0%nat -> outstanding DataWrite s = 0%nat)
  /\ (ssl_ s <> None -> (outstanding EmptyWrite s <= 1)%nat)
  /\ (write_size_ s <> 0%nat -> EncOut s = Ok s)
  /\ (forall op s',
        write_size_ s <> 0%nat ->
        (forall st, op <> OpAfterWrite st) -> op <> OpImmediate ->
        step fuel op s = Ok s' -> write_size_ s' = write_size_ s).
Proof.
  pose proof (wd_run _ _ Hrun (wd_new E kind ssl stream)) as H.
  unfold write_discipline_with in H. rewrite !Nat.add_0_r in H.
  destruct H as (Hd & Hz & _ & Ha).
  split; [exact Hd|]. split; [exact Hz|].
  split; [intros Hs; apply (Ha Hs)|].
  split; [apply EncOut_busy|].
  intros op s' Hn Hc Hi Hs.
  destruct (write_size_ s) as [|n] eqn:Hw; [congruence|].
  change (busy n s'). eapply busy_step; eauto.
Qed.

Lemma C2_single_data_write_witness :
  let ops := [OpStreamRead 1 [x16]; OpAfterWrite 0; OpDoWrite 1%nat [];
              OpStreamRead 1 [x16]] in
  let s := Demo.after ops Demo.server in
  (outstanding DataWrite s <= 1)%nat
  /\ (write_size_ s = 0%nat -> outstanding DataWrite s = 0%nat)
  /\ (ssl_ s <> None -> (outstanding EmptyWrite s <= 1)%nat)
  /\ (write_size_ s <> 0%nat -> EncOut s = Ok s)
  /\ (forall op s',
        write_size_ s <> 0%nat ->
        (forall st, op <> OpAfterWrite st) -> op <> OpImmediate ->
        step Demo.fuel op s = Ok s' -> write_size_ s' = write_size_ s).
Proof.
  intros ops s.
  apply (@C2_single_data_write Demo.env Demo.fuel kServer Demo.Handshaking
           tt ops).
  vm_compute. reflexivity.
Defined.
